(** * City layout of lore-of-the-repo: [src/utils/cityBuilder.js]

    A shallow embedding of the layout module that turns a GitHub tree
    listing into the islands and energy connections of the floating city,
    followed by the properties the specification states about it.

    Conventions of the embedding.
    - A JS string is the sequence of its UTF-16 code units, each a number
      below 2^16.  A string literal of this file stands for the code units
      of the text between the quotes: "src" is 115, 114, 99, and a character
      outside the Basic Multilingual Plane is its surrogate pair.
    - A JS number that the code only ever builds from integers by integer
      operations (sizes, indices, depths, table altitudes, the character-code
      sum) is a [Z]; every number that goes through a division, a decimal
      constant or [Math.sin]/[Math.cos] is a binary64 [float], computed with
      the kernel's IEEE 754 operations.
    - [Math.sin] and [Math.cos] are implementation-approximated in
      ECMAScript, and the case mapping of [String.prototype.toLowerCase]
      beyond Latin-1 is that of the engine's Unicode tables; they are the
      three variables of Section [Engine].
    - An absent property ([undefined]) is [None]. *)

From Stdlib Require Import ZArith Lia Ascii String Strings.Byte.
From Stdlib Require Import Floats.PrimFloat Numbers.Cyclic.Int63.Uint63.
From stdpp Require Import base option list gmap strings pretty sorting.

Set Warnings "-inexact-float".
Local Open Scope list_scope.
Local Open Scope Z_scope.

(** ** JS strings *)

(** A UTF-16 code unit.  The units of a JS string are below 65536; no
    definition below depends on the bound. *)
Abbreviation char16 := N.

Inductive jsstring : Set :=
  | JEmpty
  | JCons (c : char16) (r : jsstring).

#[global] Instance jsstring_eq_dec : EqDecision jsstring.
Proof. solve_decision. Defined.

(** [s.split('')]: one element per code unit. *)
Fixpoint split_units (s : jsstring) : list char16 :=
  match s with
  | JEmpty => []
  | JCons c r => c :: split_units r
  end.

(** [units.join('')] for one-unit elements. *)
Fixpoint join_units (units : list char16) : jsstring :=
  match units with
  | [] => JEmpty
  | c :: r => JCons c (join_units r)
  end.

#[global] Instance jsstring_countable : Countable jsstring.
Proof.
  refine (inj_countable' split_units join_units _).
  intros s. induction s as [|c r IH]; simpl; congruence.
Defined.

(** *** String literals

    The text of a literal is stored in this file as UTF-8; the literal
    denotes the UTF-16 code units of that text, as it would in a JS source
    file. *)

(** The code units of one code point: itself in the Basic Multilingual
    Plane, a surrogate pair above it. *)
Definition utf16_units (cp : N) : list char16 :=
  if (cp <? 65536)%N then [cp]
  else [ (55296 + (cp - 65536) / 1024)%N; (56320 + (cp - 65536) mod 1024)%N ].

Fixpoint utf8_decode (bs : list N) : option (list char16) :=
  match bs with
  | [] => Some []
  | b0 :: r0 =>
      if (b0 <? 128)%N then cons b0 <$> utf8_decode r0
      else if (b0 <? 192)%N then None
      else if (b0 <? 224)%N then
        match r0 with
        | b1 :: r1 =>
            app (utf16_units ((b0 - 192) * 64 + (b1 - 128))%N) <$> utf8_decode r1
        | _ => None
        end
      else if (b0 <? 240)%N then
        match r0 with
        | b1 :: b2 :: r2 =>
            app (utf16_units ((b0 - 224) * 4096 + (b1 - 128) * 64 + (b2 - 128))%N)
              <$> utf8_decode r2
        | _ => None
        end
      else
        match r0 with
        | b1 :: b2 :: b3 :: r3 =>
            app (utf16_units ((b0 - 240) * 262144 + (b1 - 128) * 4096
                              + (b2 - 128) * 64 + (b3 - 128))%N)
              <$> utf8_decode r3
        | _ => None
        end
  end.

Definition jsstring_of_literal (bs : list Byte.byte) : option jsstring :=
  join_units <$> utf8_decode (Byte.to_N <$> bs).

Definition literal_of_jsstring (s : jsstring) : option (list Byte.byte) :=
  if forallb (fun c => (c <? 128)%N) (split_units s)
  then Some (omap Byte.of_N (split_units s)) else None.

Declare Scope js_scope.
Delimit Scope js_scope with js.
Bind Scope js_scope with jsstring.
String Notation jsstring jsstring_of_literal literal_of_jsstring : js_scope.
Local Open Scope js_scope.

(** A literal for one code unit, as in ["/"%u16]. *)
Definition char16_of_literal (bs : list Byte.byte) : option N :=
  match utf8_decode (Byte.to_N <$> bs) with
  | Some [c] => Some c
  | _ => None
  end.

Definition literal_of_char16 (c : N) : option (list Byte.byte) :=
  if ((32 <=? c) && (c <? 127))%N then (fun b => [b]) <$> Byte.of_N c else None.

Declare Scope char16_scope.
Delimit Scope char16_scope with u16.
String Notation N char16_of_literal literal_of_char16 : char16_scope.

(** *** String operations *)

(** [s1 + s2] *)
Fixpoint append (s1 s2 : jsstring) : jsstring :=
  match s1 with
  | JEmpty => s2
  | JCons c r => JCons c (append r s2)
  end.
Infix "+:+" := append (at level 60, right associativity) : js_scope.

(** [s.length] *)
Fixpoint str_length (s : jsstring) : nat :=
  match s with
  | JEmpty => 0%nat
  | JCons _ r => S (str_length r)
  end.

(** [String(i)] for an array index, as a template literal inserts it: the
    decimal digits. *)
Definition Number_toString (i : nat) : jsstring :=
  join_units (N_of_ascii <$> list_ascii_of_string (pretty i)).

(** [ch.charCodeAt(0)] *)
Definition charCodeAt0 (ch : char16) : Z := Z.of_N ch.

(** One code unit of [String.prototype.toLowerCase] below 256: A-Z and the
    Latin-1 capitals (U+00C0..U+00DE without the multiplication sign U+00D7)
    move up by 32, every other unit below 256 is its own lower case. *)
Definition lower_unit (c : char16) : char16 :=
  if ((65 <=? c)%N && (c <=? 90)%N)
     || ((192 <=? c)%N && (c <=? 222)%N && negb (c =? 215)%N)
  then (c + 32)%N else c.

Fixpoint lower_units (s : jsstring) : jsstring :=
  match s with
  | JEmpty => JEmpty
  | JCons c r => JCons (lower_unit c) (lower_units r)
  end.

(** Every unit of the string is below 256: Basic Latin and Latin-1. *)
Fixpoint latin1 (s : jsstring) : bool :=
  match s with
  | JEmpty => true
  | JCons c r => (c <? 256)%N && latin1 r
  end.

(** [s.toLowerCase()].  On a string of units below 256 the Unicode case
    mapping works unit by unit and without context, as [lower_unit] has it.
    On every other string the result is the one the engine's Unicode tables
    give, [unicodeLower]. *)
Definition toLowerCase (unicodeLower : jsstring -> jsstring) (s : jsstring)
    : jsstring :=
  if latin1 s then lower_units s else unicodeLower s.

(** [s.includes(c)] for a one-unit needle. *)
Fixpoint includes (s : jsstring) (c : char16) : bool :=
  match s with
  | JEmpty => false
  | JCons d r => if decide (d = c) then true else includes r c
  end.

(** [s.split(c)] for a one-unit separator; the result is never empty. *)
Fixpoint split (s : jsstring) (c : char16) : list jsstring :=
  match s with
  | JEmpty => [JEmpty]
  | JCons d r =>
      if decide (d = c) then JEmpty :: split r c
      else match split r c with
           | seg :: segs => JCons d seg :: segs
           | [] => [JCons d JEmpty]
           end
  end.

(** [arr.pop()] read for its value: the last element, [undefined] on []. *)
Definition pop (arr : list jsstring) : option jsstring := last arr.

(** [(s.match(/c/g) || []).length]: the number of occurrences of [c]. *)
Fixpoint match_count (s : jsstring) (c : char16) : Z :=
  match s with
  | JEmpty => 0
  | JCons d r => (if decide (d = c) then 1 else 0) + match_count r c
  end.

(** [path.split('/').pop()] *)
Definition basename (path : jsstring) : jsstring :=
  default JEmpty (pop (split path "/"%u16)).

(** [v || d] on an optional number: [undefined] and [0] are falsy. *)
Definition num_or (v : option Z) (d : Z) : Z :=
  match v with
  | Some n => if decide (n = 0) then d else n
  | None => d
  end.

(** [v || d] on an optional string: [undefined] and [''] are falsy. *)
Definition str_or (v : option jsstring) (d : jsstring) : jsstring :=
  match v with
  | Some s => if decide (s = JEmpty) then d else s
  | None => d
  end.

(** ** JS numbers *)

(** The Number value of an integer; exact below 2^53 in absolute value,
    which covers every integer this module converts (indices below 16,
    altitudes, residues modulo 30). *)
Definition Z2F (z : Z) : float :=
  if z <? 0 then PrimFloat.opp (PrimFloat.of_uint63 (Uint63.of_Z (- z)))
  else PrimFloat.of_uint63 (Uint63.of_Z z).

(** [Math.PI] *)
Definition Math_PI : float := 3.141592653589793%float.

(** What a property read on [ALTITUDE_MAP] can yield besides [undefined]:
    one of its own numbers, or the object stored under that key on
    [Object.prototype], which every object literal inherits from (the
    function [Object] under "constructor", [Object.prototype] itself under
    "__proto__", a built-in method under the other keys). *)
Inductive jsval :=
  | Num (n : Z)
  | Inherited (key : jsstring).

#[global] Instance jsval_eq_dec : EqDecision jsval.
Proof. solve_decision. Defined.

(** ToNumber: an integer is itself; a function or a plain object converts
    through its string form, which is not numeric, to NaN. *)
Definition toNumber (v : jsval) : float :=
  match v with
  | Num n => Z2F n
  | Inherited _ => PrimFloat.nan
  end.

(** [v > k] for an integer [k]: false as soon as one side is NaN. *)
Definition js_gt (v : jsval) (k : Z) : bool :=
  match v with
  | Num n => bool_decide (k < n)
  | Inherited _ => false
  end.

Definition is_number (v : jsval) : bool :=
  match v with Num _ => true | Inherited _ => false end.

(** ** The altitude table *)

Definition ALTITUDE_MAP : gmap jsstring Z :=
  list_to_map
    [ ("src", 12); ("core", 11); ("lib", 10); ("main", 10); ("api", 9); ("app", 9);
      ("components", 7); ("utils", 6); ("services", 6); ("hooks", 6); ("store", 6);
      ("context", 6);
      ("assets", 4); ("styles", 4); ("public", 4); ("static", 4);
      ("test", 2); ("tests", 2); ("__tests__", 2); ("examples", 2);
      ("docs", 1); ("deprecated", 0); ("legacy", 0) ].

Definition ISLAND_RADIUS_BASE : float := 14%float.

(** The property names of [Object.prototype] (ECMA-262 with Annex B). *)
Definition OBJECT_PROTOTYPE_KEYS : list jsstring :=
  [ "constructor"; "hasOwnProperty"; "isPrototypeOf"; "propertyIsEnumerable";
    "toLocaleString"; "toString"; "valueOf"; "__proto__";
    "__defineGetter__"; "__defineSetter__"; "__lookupGetter__"; "__lookupSetter__" ].

(** [ALTITUDE_MAP[key]]: own properties first, then the prototype. *)
Definition ALTITUDE_MAP_get (key : jsstring) : option jsval :=
  match ALTITUDE_MAP !! key with
  | Some n => Some (Num n)
  | None =>
      if decide (key ∈ OBJECT_PROTOTYPE_KEYS) then Some (Inherited key) else None
  end.

(** ** The helpers of cityBuilder.js *)

(** [name.split('').reduce((acc, ch) => acc + ch.charCodeAt(0), 0)]: the sum
    of the UTF-16 code units of the name. *)
Definition name_hash (name : jsstring) : Z :=
  foldl (fun acc ch => acc + charCodeAt0 ch) 0 (split_units name).

Definition nameToAngle (name : jsstring) (index total : nat) : float :=
  let hash := name_hash name in
  let baseAngle := (Z2F (Z.of_nat index) / Z2F (Z.of_nat total) * Math_PI * 2)%float in
  let jitter := (Z2F (hash `mod` 30) * (Math_PI / 180))%float in
  (baseAngle + jitter)%float.

Definition sizeToScale (size : Z) : float :=
  if decide (size < 10000) then 0.6%float
  else if decide (size < 50000) then 0.9%float
  else if decide (size < 200000) then 1.2%float
  else if decide (size < 1000000) then 1.6%float
  else 2.0%float.

Definition getAltitude (unicodeLower : jsstring -> jsstring)
    (name : jsstring) (depth : Z) : jsval :=
  let key := toLowerCase unicodeLower name in
  match ALTITUDE_MAP_get key with
  | Some v => v
  | None => Num (Z.max 0 (8 - depth * 2))
  end.

(** ** Input and output records *)

(** An element of [treeData]: an entry of GitHub's tree listing.  The layout
    reads [path], [type], [size] and [sha]; [mode] and [url] stand for the
    properties of the entry it never looks at. *)
Module TreeEntry.
Record t := mk {
    path : jsstring;
    type : jsstring;
    size : option Z;
    sha : option jsstring;
    mode : option jsstring;
    url : option jsstring;
}.
End TreeEntry.

(** [repoMeta]: the repository object of the caller.  Only [name] is read
    here; [commits_count] is one of the fields the fetch hook adds (it
    derives it from the wall clock). *)
Module RepoMeta.
Record t := mk {
    name : option jsstring;
    commits_count : option Z;
}.
End RepoMeta.

Definition vec3 : Type := float * float * float.

Inductive nodeType := core | directory | sun | star.

#[global] Instance nodeType_eq_dec : EqDecision nodeType.
Proof. solve_decision. Defined.

Inductive jsnull := null.

Module Island.
Record t := mk {
    id : jsstring;
    name : option jsstring;
    type : nodeType;
    position : vec3;
    scale : float;
    altitude : jsval;
    color : option jsnull;
    fileCount : option Z;
    isCore : option bool;
    angle : option float;
    orbitSpeed : option float;
    orbitRadius : option float;
    depth : option Z;
    originalPath : option jsstring;
    fileSize : option Z;
}.
End Island.

Module Connection.
Record t := mk {
    id : jsstring;
    from : vec3;
    to : vec3;
    thickness : float;
    isPrimary : bool;
}.
End Connection.

Record CityLayout := mkLayout {
  islands : list Island.t;
  connections : list Connection.t;
}.

(** How a call ends: with a value, or with an exception. *)
Inductive exn := TypeError.

Inductive completion (A : Type) :=
  | Return (a : A)
  | Throw (e : exn).
Arguments Return {A} a.
Arguments Throw {A} e.

(** ** [Array.prototype.sort] with a comparator

    The sort of ECMAScript is stable; with a consistent comparator its result
    is the one arrangement of the elements that is ordered by the comparator
    and keeps equal elements in their input order.  Insertion from the right,
    placing an element before the first one it does not compare greater than,
    produces that arrangement. *)
Section Sort.
Context {A : Type} (cmp : A -> A -> Z).

Fixpoint sort_insert (x : A) (l : list A) : list A :=
  match l with
  | [] => [x]
  | y :: l' => if decide (cmp x y <= 0) then x :: l else y :: sort_insert x l'
  end.

Definition sort (l : list A) : list A := foldr sort_insert [] l.
End Sort.

(** ** The tree normalizer part of [buildCityLayout] *)

(** [(a, b) => (b.size || 0) - (a.size || 0)] *)
Definition sizeCompare (a b : TreeEntry.t) : Z :=
  num_or (TreeEntry.size b) 0 - num_or (TreeEntry.size a) 0.

Definition dirs (treeData : list TreeEntry.t) : list TreeEntry.t :=
  filter (fun item => TreeEntry.type item = "tree") treeData.

Definition topFiles (treeData : list TreeEntry.t) : list TreeEntry.t :=
  take 8 (sort sizeCompare
            (filter (fun item => TreeEntry.type item = "blob") treeData)).

Definition topDirs (treeData : list TreeEntry.t) : list TreeEntry.t :=
  take 16 (filter (fun d => ¬ includes (TreeEntry.path d) "/"%u16) (dirs treeData)).

(** ** The demo city *)

Definition origin : vec3 := (0, 0, 0)%float.

Definition demoDirectory (id : jsstring) (position : vec3) (scale : float)
    (altitude : Z) (angle orbitSpeed orbitRadius : float) : Island.t :=
  {| Island.id := id; Island.name := Some id; Island.type := directory;
     Island.position := position; Island.scale := scale;
     Island.altitude := Num altitude; Island.color := None;
     Island.fileCount := None; Island.isCore := None;
     Island.angle := Some angle; Island.orbitSpeed := Some orbitSpeed;
     Island.orbitRadius := Some orbitRadius; Island.depth := None;
     Island.originalPath := None; Island.fileSize := None |}.

Definition demoFile (id name : jsstring) (type : nodeType) (position : vec3)
    (scale : float) (altitude fileSize : Z) : Island.t :=
  {| Island.id := id; Island.name := Some name; Island.type := type;
     Island.position := position; Island.scale := scale;
     Island.altitude := Num altitude; Island.color := None;
     Island.fileCount := None; Island.isCore := None;
     Island.angle := None; Island.orbitSpeed := None;
     Island.orbitRadius := None; Island.depth := None;
     Island.originalPath := None; Island.fileSize := Some fileSize |}.

Definition demoConnection (id : jsstring) (from to : vec3) (thickness : float)
    (isPrimary : bool) : Connection.t :=
  {| Connection.id := id; Connection.from := from; Connection.to := to;
     Connection.thickness := thickness; Connection.isPrimary := isPrimary |}.

(** [repoMeta?.name || 'DemoRepo'] *)
Definition demoName (repoMeta : option RepoMeta.t) : jsstring :=
  str_or (repoMeta ≫= RepoMeta.name) "DemoRepo".

Definition buildDemoCity (repoMeta : option RepoMeta.t) : CityLayout :=
  let name := demoName repoMeta in
  let islands :=
    [ {| Island.id := "core-station"; Island.name := Some name;
         Island.type := core; Island.position := origin; Island.scale := 2.5%float;
         Island.altitude := Num 0; Island.color := None;
         Island.fileCount := Some 247; Island.isCore := Some true;
         Island.angle := None; Island.orbitSpeed := None;
         Island.orbitRadius := None; Island.depth := None;
         Island.originalPath := None; Island.fileSize := None |};
      demoDirectory "src" (-12, 7, -5)%float 1.4%float 12 0%float 0.0003%float 13%float;
      demoDirectory "api" (10, 6, -8)%float 1.3%float 9 1.2%float 0.00025%float 13%float;
      demoDirectory "components" (5, 2, 12)%float 1.1%float 7 2.1%float 0.00022%float 13%float;
      demoDirectory "utils" (-8, 1, 10)%float 1.0%float 6 3.0%float 0.0002%float 12%float;
      demoDirectory "hooks" (14, 1, 3)%float 0.9%float 6 3.8%float 0.00018%float 14%float;
      demoDirectory "store" (-14, 0, -3)%float 0.9%float 6 4.5%float 0.00017%float 14%float;
      demoDirectory "assets" (3, -3, -14)%float 0.8%float 4 5.2%float 0.00015%float 14%float;
      demoDirectory "tests" (-6, -5, -12)%float 0.7%float 2 5.9%float 0.00012%float 13%float;
      demoDirectory "docs" (12, -6, 7)%float 0.65%float 1 0.8%float 0.0001%float 14%float;
      demoFile "main-file" "index.js" sun (4, 5, 4)%float 1.2%float 8 80000;
      demoFile "config-file" "config.json" star (-4, 3, 5)%float 0.7%float 5 5000;
      demoFile "readme" "README.md" star (6, 2, -5)%float 0.65%float 3 3000 ] in
  let connections :=
    [ demoConnection "c1" origin (-12, 7, -5)%float 2%float true;
      demoConnection "c2" origin (10, 6, -8)%float 2%float true;
      demoConnection "c3" origin (5, 2, 12)%float 1.5%float true;
      demoConnection "c4" origin (-8, 1, 10)%float 1%float false;
      demoConnection "c5" origin (14, 1, 3)%float 1%float false;
      demoConnection "c6" origin (-14, 0, -3)%float 1%float false;
      demoConnection "c7" origin (3, -3, -14)%float 0.8%float false;
      demoConnection "c8" origin (-6, -5, -12)%float 0.6%float false;
      demoConnection "c9" (-12, 7, -5)%float (5, 2, 12)%float 1%float false;
      demoConnection "c10" (10, 6, -8)%float (14, 1, 3)%float 0.8%float false ] in
  {| islands := islands; connections := connections |}.

(** ** [buildCityLayout] *)

Section Engine.
(** The host's [Math.sin] and [Math.cos], and the case mapping of its
    Unicode tables. *)
Variables Math_sin Math_cos : float -> float.
Variable lower : jsstring -> jsstring.

(** The body of [topDirs.forEach((dir, i) => ...)]: the island pushed onto
    [islands] and the connection pushed onto [connections]; both hold the
    same [pos]. *)
Definition placeDirectory (total : nat) (i : nat) (dir : TreeEntry.t)
    : Island.t * Connection.t :=
  let name := basename (TreeEntry.path dir) in
  let depth := match_count (TreeEntry.path dir) "/"%u16 in
  let altitude := getAltitude lower name depth in
  let angle := nameToAngle name i total in
  let radius := (ISLAND_RADIUS_BASE + Math_sin (Z2F (Z.of_nat i) * 1.3) * 4)%float in
  let scale := (0.8 + toNumber altitude / 15)%float in
  let pos : vec3 :=
    (Math_cos angle * radius, toNumber altitude - 5, Math_sin angle * radius)%float in
  ( {| Island.id := str_or (TreeEntry.sha dir) ("dir-" +:+ Number_toString i);
       Island.name := Some name;
       Island.type := directory;
       Island.position := pos;
       Island.scale := scale;
       Island.altitude := altitude;
       Island.color := None;
       Island.fileCount := None;
       Island.isCore := None;
       Island.angle := Some angle;
       Island.orbitSpeed := Some (0.0002 + toNumber altitude * 0.00003)%float;
       Island.orbitRadius := Some radius;
       Island.depth := Some depth;
       Island.originalPath := Some (TreeEntry.path dir);
       Island.fileSize := None |},
    {| Connection.id := "conn-core-" +:+ Number_toString i;
       Connection.from := origin;
       Connection.to := pos;
       Connection.thickness := if js_gt altitude 8 then 2%float else 1%float;
       Connection.isPrimary := js_gt altitude 7 |} ).

(** The body of [topFiles.forEach((file, i) => ...)]. *)
Definition placeFile (total : nat) (i : nat) (file : TreeEntry.t) : Island.t :=
  let name := basename (TreeEntry.path file) in
  let size := num_or (TreeEntry.size file) 1000 in
  let angle :=
    (Z2F (Z.of_nat i) / Z2F (Z.of_nat total) * Math_PI * 2 + Math_PI / 4)%float in
  let radius := Z2F (6 + (Z.of_nat i `mod` 3) * 2) in
  let altitude := 2 + (if decide (50000 < size) then 4 else 0) in
  {| Island.id := str_or (TreeEntry.sha file) ("file-" +:+ Number_toString i);
     Island.name := Some name;
     Island.type := if decide (50000 < size) then sun else star;
     Island.position :=
       (Math_cos angle * radius, Z2F altitude - 3, Math_sin angle * radius)%float;
     Island.scale := sizeToScale size;
     Island.altitude := Num altitude;
     Island.color := None;
     Island.fileCount := None;
     Island.isCore := None;
     Island.angle := None;
     Island.orbitSpeed := None;
     Island.orbitRadius := None;
     Island.depth := None;
     Island.originalPath := Some (TreeEntry.path file);
     Island.fileSize := Some size |}.

(** The central core station of the primary path. *)
Definition coreStation (treeData : list TreeEntry.t) (repoMeta : RepoMeta.t)
    : Island.t :=
  {| Island.id := "core-station";
     Island.name := RepoMeta.name repoMeta;
     Island.type := core;
     Island.position := origin;
     Island.scale := 2.5%float;
     Island.altitude := Num 0;
     Island.color := Some null;
     Island.fileCount := Some (Z.of_nat (length treeData));
     Island.isCore := Some true;
     Island.angle := None;
     Island.orbitSpeed := None;
     Island.orbitRadius := None;
     Island.depth := None;
     Island.originalPath := None;
     Island.fileSize := None |}.

(** The two loops, in the order they push. *)
Definition placedDirs (treeData : list TreeEntry.t)
    : list (Island.t * Connection.t) :=
  imap (placeDirectory (length (topDirs treeData))) (topDirs treeData).

Definition placedFiles (treeData : list TreeEntry.t) : list Island.t :=
  imap (placeFile (length (topFiles treeData))) (topFiles treeData).

(** What the call returns once there are entries to place and [repoMeta]
    is an object: the core station, then the directory islands, then the
    file orbs. *)
Definition primaryLayout (treeData : list TreeEntry.t) (meta : RepoMeta.t)
    : CityLayout :=
  {| islands :=
       coreStation treeData meta
       :: (fst <$> placedDirs treeData) ++ placedFiles treeData;
     connections := snd <$> placedDirs treeData |}.

(** [treeData] is [None] for a missing argument ([undefined] or [null]),
    and so is [repoMeta].  With data to place, [repoMeta.name] is read
    without a guard: on a missing [repoMeta] the call ends in a TypeError. *)
Definition buildCityLayout (treeData : option (list TreeEntry.t))
    (repoMeta : option RepoMeta.t) : completion CityLayout :=
  match treeData with
  | None | Some [] => Return (buildDemoCity repoMeta)
  | Some treeData =>
      match repoMeta with
      | None => Throw TypeError
      | Some meta => Return (primaryLayout treeData meta)
      end
  end.
End Engine.

(** ** Vocabulary of the properties *)

(** The key the comparator of the file sort orders by. *)
Definition sizeKey (e : TreeEntry.t) : Z := num_or (TreeEntry.size e) 0.

(** The size the placement of a file works with. *)
Definition placedSize (e : TreeEntry.t) : Z := num_or (TreeEntry.size e) 1000.

(** Two entries that agree on every property the layout reads. *)
Definition sameEntry (e1 e2 : TreeEntry.t) : Prop :=
  TreeEntry.path e1 = TreeEntry.path e2
  /\ TreeEntry.type e1 = TreeEntry.type e2
  /\ TreeEntry.size e1 = TreeEntry.size e2
  /\ TreeEntry.sha e1 = TreeEntry.sha e2.

(** The same tree: both missing, or the same entries in the same order. *)
Definition sameTree (t1 t2 : option (list TreeEntry.t)) : Prop :=
  match t1, t2 with
  | None, None => True
  | Some l1, Some l2 => Forall2 sameEntry l1 l2
  | _, _ => False
  end.

(** The same repository: both missing, or the same name. *)
Definition sameMeta (m1 m2 : option RepoMeta.t) : Prop :=
  match m1, m2 with
  | None, None => True
  | Some a, Some b => RepoMeta.name a = RepoMeta.name b
  | _, _ => False
  end.

(** The tree is missing or empty: the fallback trigger. *)
Definition noData (t : option (list TreeEntry.t)) : Prop :=
  t = None \/ t = Some [].

(** The nodes of one variant, in output order. *)
Definition nodesOfType (ty : nodeType) (L : CityLayout) : list Island.t :=
  filter (fun n => Island.type n = ty) (islands L).

(** The directory selection in the words of the specification: entries of
    kind Directory whose path has no slash, in input order, at most 16. *)
Definition spec_topLevelDirectories (treeData : list TreeEntry.t)
    : list TreeEntry.t :=
  take 16
    (filter (fun e => TreeEntry.type e = "tree"
                      /\ includes (TreeEntry.path e) "/"%u16 = false)
       treeData).

(** Descending order of the sort key. *)
Definition sizeDescending (a b : TreeEntry.t) : Prop := sizeKey b <= sizeKey a.



Definition spec_scale (altitude : jsval) : float :=
  (0.8 + toNumber altitude / 15)%float.


(** The ids of the nodes, in output order. *)
Definition nodeIds (L : CityLayout) : list jsstring := Island.id <$> islands L.

(** The identifiers that take part in the ids: the truthy [sha]s. *)
Definition identifier (e : TreeEntry.t) : option jsstring :=
  match TreeEntry.sha e with
  | Some s => if decide (s = JEmpty) then None else Some s
  | None => None
  end.

(** The ids the layout hands out by itself. *)
Definition reservedIds : list jsstring :=
  "core-station"
  :: ((fun i : nat => "dir-" +:+ Number_toString i) <$> seq 0 16)
  ++ ((fun i : nat => "file-" +:+ Number_toString i) <$> seq 0 8).

Definition uniquePaths (t : list TreeEntry.t) : Prop :=
  NoDup (TreeEntry.path <$> t).

(** Sample inputs. *)
Definition entry (path type : jsstring) (size : option Z) (sha : option jsstring)
    : TreeEntry.t :=
  TreeEntry.mk path type size sha None None.

Definition demoMeta : RepoMeta.t := RepoMeta.mk (Some "demo") None.

(** The example scenario of the specification. *)
Definition scenario : list TreeEntry.t :=
  [ entry "src" "tree" None None;
    entry "docs" "tree" None None;
    entry "src/index.js" "blob" (Some 80000) None ].

(** Two files with the same content, hence the same blob sha. *)
Definition twins : list TreeEntry.t :=
  [ entry "a/LICENSE" "blob" (Some 1071) (Some "8f71f43fee3f78649d238238cbde51e6d7055c82");
    entry "b/LICENSE" "blob" (Some 1071) (Some "8f71f43fee3f78649d238238cbde51e6d7055c82") ].

(** The Sun and Star nodes, in output order. *)
Definition fileNodes (L : CityLayout) : list Island.t :=
  filter (fun n => Island.type n = sun \/ Island.type n = star) (islands L).

(** The edge [c] is the one of the directory node [d]. *)
Definition edgeOfDirectory (c : Connection.t) (d : Island.t) : Prop :=
  Island.type d = directory
  /\ Connection.from c = origin
  /\ Connection.to c = Island.position d
  /\ Connection.isPrimary c = js_gt (Island.altitude d) 7
  /\ Connection.thickness c
     = (if js_gt (Island.altitude d) 8 then 2%float else 1%float).

(** The scenario as a later fetch returns it: the same paths, types, sizes
    and identifiers, other entry properties filled in, and a repository
    object whose commit estimate has moved on. *)
Definition scenarioRefetched : list TreeEntry.t :=
  [ TreeEntry.mk "src" "tree" None None (Some "040000") (Some "https://api.github.com/t/1");
    TreeEntry.mk "docs" "tree" None None (Some "040000") (Some "https://api.github.com/t/2");
    TreeEntry.mk "src/index.js" "blob" (Some 80000) None (Some "100644") None ].

Definition demoMetaLater : RepoMeta.t := RepoMeta.mk (Some "demo") (Some 216).

(** A listing with a file whose size is not reported. *)
Definition withUnsizedFile : list TreeEntry.t :=
  [ entry "big.bin" "blob" (Some 5000000) None;
    entry "notes.txt" "blob" None None;
    entry "small.txt" "blob" (Some 5000) None ].

(** An entry with the fallback id of its slot in the output, and the id the
    slot gets: the entry's identifier when it has one. *)
Definition slotId (slot : TreeEntry.t * jsstring) : jsstring :=
  str_or (TreeEntry.sha slot.1) slot.2.

(** The slots of the primary layout: one for the core station, which has no
    entry behind it, then the directories, then the files. *)
Definition idSlots (treeData : list TreeEntry.t) : list (TreeEntry.t * jsstring) :=
  (entry "" "" None None, "core-station")
  :: imap (fun (i : nat) d => (d, "dir-" +:+ Number_toString i)) (topDirs treeData)
  ++ imap (fun (i : nat) f => (f, "file-" +:+ Number_toString i)) (topFiles treeData).

(** Ten files.  The two empty ones have the same content, hence the same
    identifier; the sort ranks them last, and only the eight others are
    placed. *)
Definition crowdedListing : list TreeEntry.t :=
  [ entry "a/.gitkeep" "blob" (Some 0) (Some "e69de29bb2d1d6434b8b29ae775ad8c2e48c5391");
    entry "b/.gitkeep" "blob" (Some 0) (Some "e69de29bb2d1d6434b8b29ae775ad8c2e48c5391");
    entry "README.md" "blob" (Some 1071) (Some "8f71f43fee3f78649d238238cbde51e6d7055c82");
    entry "LICENSE" "blob" (Some 1065) (Some "7a4a3ea2424c09fbe48d455aed1eaa94d9124835");
    entry "index.js" "blob" (Some 800) None;
    entry "app.js" "blob" (Some 700) None;
    entry "main.css" "blob" (Some 600) None;
    entry "logo.svg" "blob" (Some 500) None;
    entry "package.json" "blob" (Some 400) None;
    entry "notes.txt" "blob" (Some 300) None ].


(** ** Further vocabulary for the layout *)

(** The entries the layout can place: files, and directories of depth 0. *)
Definition placeable (e : TreeEntry.t) : Prop :=
  TreeEntry.type e = "blob"
  \/ (TreeEntry.type e = "tree" /\ includes (TreeEntry.path e) "/"%u16 = false).

(** The lower-cased name is neither an entry of the altitude table nor a
    property name of [Object.prototype]. *)
Definition unlisted (lower : jsstring -> jsstring) (name : jsstring) : Prop :=
  ALTITUDE_MAP !! toLowerCase lower name = None
  /\ toLowerCase lower name ∉ OBJECT_PROTOTYPE_KEYS.

(** The vertical coordinate of a position. *)
Definition height (p : vec3) : float := p.1.2.

(** A listing with nested directories, a submodule and no sizes. *)
Definition nestedListing : list TreeEntry.t :=
  [ entry "Packages" "tree" None None;
    entry "Packages/core" "tree" None None;
    entry "vendor/lib" "commit" None None;
    entry "Packages/core/a.js" "blob" (Some 60000) None;
    entry "b.js" "blob" (Some 70000) None;
    entry ".gitmodules" "blob" (Some 120) None ].

(** ** Consumers of the layout

    The scene and the feature overlays read the lists that
    [buildCityLayout] returns.  Their data-driven parts are embedded here;
    an absent [islands] prop is [None]. *)

(** [!island.isCore] *)
Definition notCore (i : Island.t) : bool := negb (default false (Island.isCore i)).

(** [v || d] on an altitude: the number 0 is falsy, an object is truthy. *)
Definition val_or (v : jsval) (d : Z) : jsval :=
  match v with
  | Num n => if decide (n = 0) then Num d else v
  | Inherited _ => v
  end.

(** [arr.slice(a, b)] for indices that are not negative. *)
Definition slice {A} (a b : nat) (arr : list A) : list A :=
  take (b - a) (drop a arr).

(** [islands.find(i => i.isCore)] of the scene. *)
Definition coreIsland (islands : list Island.t) : option Island.t :=
  head (filter (fun i => default false (Island.isCore i)) islands).

(** BattleMode.jsx *)
Record Conflict := mkConflict {
  islandId : jsstring;
  branchA : jsstring * jsstring;
  branchB : jsstring * jsstring;
}.

Definition getMockConflicts (islands : option (list Island.t)) : list Conflict :=
  match islands with
  | None => []
  | Some islands =>
      if decide (length islands < 3)%nat then []
      else
        (fun island =>
           {| islandId := Island.id island;
              branchA := ("feature/ui-redesign", "#00aaff");
              branchB := ("hotfix/auth-patch", "#ff4400") |})
        <$> slice 0 2
              (filter (fun i => notCore i /\ js_gt (val_or (Island.altitude i) 0) 3)
                 islands)
  end.

(** OnboardingQuest.jsx: the stops of the guided tour. *)
Definition tourStops (islands : option (list Island.t)) : list Island.t :=
  match islands with
  | Some islands =>
      slice 0 6 (filter (fun i => notCore i /\ Island.type i = directory) islands)
  | None => []
  end.

(** LiveTraffic.jsx: the static trails between neighbouring islands;
    the result is [] without islands or when the overlay is off. *)
Record Trail := mkTrail {
  trailKey : jsstring;
  trailFrom : vec3;
  trailTo : vec3;
}.

Definition trailBetween (a b : Island.t) : Trail :=
  {| trailKey := Island.id a +:+ "-" +:+ Island.id b;
     trailFrom := Island.position a;
     trailTo := Island.position b |}.

Definition trails (islands : option (list Island.t)) (active : bool) : list Trail :=
  match islands with
  | None => []
  | Some islands =>
      if negb active then []
      else
        mjoin (imap (fun (i : nat) a =>
                       trailBetween a <$> slice (i + 1) (i + 3) islands)
                    (slice 0 10 islands))
  end.

(** LiveTraffic.jsx: the mock CI state of an island. *)
Inductive buildState := pass | fail | pending.

#[global] Instance buildState_eq_dec : EqDecision buildState.
Proof. solve_decision. Defined.

Definition BUILD_STATES : list buildState := [pass; fail; pending; pass; pass].

(** Reading [arr[k]] for a number [k]: [undefined] ([None]) unless [k] is
    an index of the array. *)
Definition at_index {A} (arr : list A) (k : Z) : option A :=
  if decide (0 <= k) then arr !! Z.to_nat k else None.

(** [BUILD_STATES[hash % BUILD_STATES.length]]; the remainder of JS takes the
    sign of the dividend, as [Z.rem] does. *)
Definition getBuildState (islandName : option jsstring) : option buildState :=
  let hash := name_hash (str_or islandName "") in
  at_index BUILD_STATES (Z.rem hash (Z.of_nat (length BUILD_STATES))).

(** [islands?.some(i => getBuildState(i.name) === 'fail')] *)
Definition anyFail (islands : list Island.t) : bool :=
  bool_decide (Exists (fun i => getBuildState (Island.name i) = Some fail) islands).

(** FloatingIsland.jsx: the timeline percentage at which an island appears,
    [island.isCore ? 0 : Math.max(0, 100 - (island.altitude || 5) * 7)];
    [None] is NaN. *)
Definition birthPct (island : Island.t) : option Z :=
  if default false (Island.isCore island) then Some 0
  else match val_or (Island.altitude island) 5 with
       | Num a => Some (Z.max 0 (100 - a * 7))
       | Inherited _ => None
       end.

(** [timelineProgress >= birthPct]: false against NaN. *)
Definition isVisible (timelineProgress : Z) (island : Island.t) : bool :=
  match birthPct island with
  | Some b => bool_decide (b <= timelineProgress)
  | None => false
  end.

(** What a consumer finds behind the core station: a node without the core
    flag, not of the Core variant, whose altitude lies between 0 and 12
    unless it is an inherited object, which only a directory can have. *)
Definition plainNode (n : Island.t) : Prop :=
  Island.isCore n = None
  /\ Island.type n <> core
  /\ match Island.altitude n with
     | Num a => 0 <= a <= 12
     | Inherited _ => Island.type n = directory
     end.

(** A listing with a single top-level directory. *)
Definition loneDirectory : list TreeEntry.t :=
  [ entry "src" "tree" None None ].

(** [Math.min(a, b)]: NaN when either is NaN, the smaller otherwise, and -0
    before +0. *)
Definition Math_min (a b : float) : float :=
  if PrimFloat.is_nan a || PrimFloat.is_nan b then PrimFloat.nan
  else if PrimFloat.ltb a b then a
  else if PrimFloat.ltb b a then b
  else if PrimFloat.get_sign a then a else b.

(** LegacyDecay.jsx: the decay level of an island. *)
Definition getDecayLevel (island : Island.t) : float :=
  let base := (1 - Math_min 1 (toNumber (val_or (Island.altitude island) 0) / 12))%float in
  let nameHash := name_hash (str_or (Island.name island) "") in
  let variation := (Z2F (Z.rem nameHash 100) / 100)%float in
  Math_min 1 (base * 0.7 + variation * 0.3)%float.

(** ** The fetch hook, useGitHubData.js *)



(** The code units [String.prototype.trim] removes, the WhiteSpace and
    LineTerminator of ECMAScript: TAB, LF, VT, FF, CR, space, the no-break
    space, U+1680, U+2000..U+200A, U+2028, U+2029, U+202F, U+205F, U+3000
    and the byte order mark U+FEFF. *)
Definition is_space (c : char16) : bool :=
  ((9 <=? c)%N && (c <=? 13)%N) || (c =? 32)%N || (c =? 160)%N
  || (c =? 5760)%N || ((8192 <=? c)%N && (c <=? 8202)%N)
  || (c =? 8232)%N || (c =? 8233)%N || (c =? 8239)%N || (c =? 8287)%N
  || (c =? 12288)%N || (c =? 65279)%N.

Fixpoint trimStart (s : jsstring) : jsstring :=
  match s with
  | JEmpty => JEmpty
  | JCons c r => if is_space c then trimStart r else s
  end.

Fixpoint trimEnd (s : jsstring) : jsstring :=
  match s with
  | JEmpty => JEmpty
  | JCons c r =>
      match trimEnd r with
      | JEmpty => if is_space c then JEmpty else JCons c JEmpty
      | r' => JCons c r'
      end
  end.

(** [s.trim()] *)
Definition trim (s : jsstring) : jsstring := trimEnd (trimStart s).

(** [s.split(c)[0]] *)
Definition firstSegment (s : jsstring) (c : char16) : jsstring :=
  default JEmpty (head (split s c)).

(** [s.replace(/suf$/, '')] for a literal, non-empty [suf]: the string
    without it when it ends in it. *)
Fixpoint removeSuffix (suf s : jsstring) {struct s} : jsstring :=
  if decide (s = suf) then JEmpty
  else match s with
       | JEmpty => JEmpty
       | JCons c r => JCons c (removeSuffix suf r)
       end.

(** The rest of [s] behind the literal [pre], when [s] starts with it. *)
Fixpoint stripPrefix (pre s : jsstring) : option jsstring :=
  match pre with
  | JEmpty => Some s
  | JCons p pre' =>
      match s with
      | JEmpty => None
      | JCons c r => if decide (c = p) then stripPrefix pre' r else None
      end
  end.

(** [s.replace(/^pre/, '')] for a literal [pre]. *)
Definition removePrefix (pre s : jsstring) : jsstring :=
  default s (stripPrefix pre s).

(** [s.replace(/^https?:\/\//, '')] *)
Definition removeProtocol (s : jsstring) : jsstring :=
  match stripPrefix "https://" s with
  | Some r => r
  | None => removePrefix "http://" s
  end.

Record RepoRef := mkRepoRef {
  owner : jsstring;
  repo : jsstring;
}.

(** [parseRepoUrl]; [None] is [null]. *)
Definition parseRepoUrl (rawUrl : option jsstring) : option RepoRef :=
  let url := trim (str_or rawUrl "") in
  let url := firstSegment (firstSegment url "#"%u16) "?"%u16 in
  let url := removeSuffix "/" url in
  let url := removeSuffix ".git" url in
  let url := removeProtocol url in
  let url := removePrefix "www." url in
  let url := removePrefix "github.com/" url in
  let parts := filter (fun p => p <> JEmpty) (split url "/"%u16) in
  match parts with
  | owner :: repo :: _ => Some {| owner := owner; repo := repo |}
  | _ => None
  end.

(** A name as GitHub hands them out for owners and repositories, as far as
    the parser cares: not empty, and free of white space, slashes, '#'
    and '?'. *)
Definition cleanName (s : jsstring) : Prop :=
  s <> JEmpty
  /\ Forall (fun c => is_space c = false
                      /\ c <> "/"%u16 /\ c <> "#"%u16 /\ c <> "?"%u16)
       (split_units s).

(** The ways of writing the host in front of "owner/repo". *)
Definition hostPrefixes : list jsstring :=
  [ "github.com/"; "www.github.com/";
    "http://github.com/"; "https://github.com/";
    "http://www.github.com/"; "https://www.github.com/" ].

(** What may follow the repository name. *)
Definition urlSuffixes : list jsstring := [ ""; "/"; ".git"; ".git/" ].

(** * Properties *)

(** ** Strings *)

Lemma split_nonempty s c : split s c <> [].
Proof.
  destruct s as [|d r]; simpl; [done|].
  case_decide; [done|]. by destruct (split r c).
Qed.

Lemma split_no_separator s c : includes s c = false -> split s c = [s].
Proof.
  induction s as [|d r IH]; simpl; [done|].
  case_decide; [done|]. intros Hr. by rewrite (IH Hr).
Qed.

Lemma basename_top_level p : includes p "/"%u16 = false -> basename p = p.
Proof. intros H. unfold basename. by rewrite (split_no_separator _ _ H). Qed.

Lemma match_count_top_level p c : includes p c = false -> match_count p c = 0.
Proof.
  induction p as [|d r IH]; simpl; [done|].
  case_decide; [done|]. intros Hr. by rewrite (IH Hr).
Qed.

Lemma match_count_nonneg p c : 0 <= match_count p c.
Proof. induction p as [|d r IH]; simpl; [lia|]. case_decide; lia. Qed.

(** ** The sort *)

Section SortFacts.
Context {A : Type} (cmp : A -> A -> Z) (key : A -> Z).
Hypothesis cmp_key : forall a b, cmp a b = key b - key a.

Let desc (a b : A) : Prop := key b <= key a.

Lemma sort_insert_Permutation x l : sort_insert cmp x l ≡ₚ x :: l.
Proof.
  induction l as [|y l IH]; simpl; [done|].
  case_decide; [done|]. rewrite IH. apply Permutation_swap.
Qed.

Lemma sort_Permutation l : sort cmp l ≡ₚ l.
Proof.
  induction l as [|x l IH]; simpl; [done|].
  fold (sort cmp l). by rewrite sort_insert_Permutation, IH.
Qed.

Lemma sort_insert_sorted x l :
  StronglySorted desc l -> StronglySorted desc (sort_insert cmp x l).
Proof.
  induction 1 as [|y l Hl IH Hy]; simpl.
  - repeat constructor.
  - case_decide as Hc; rewrite cmp_key in Hc.
    + constructor; [by constructor|].
      constructor; [unfold desc; lia|].
      eapply Forall_impl; [exact Hy|]. unfold desc. intros z Hz. lia.
    + constructor; [done|].
      rewrite sort_insert_Permutation. constructor; [unfold desc; lia|done].
Qed.

Lemma sort_sorted l : StronglySorted desc (sort cmp l).
Proof.
  induction l as [|x l IH]; simpl; [constructor|].
  by apply sort_insert_sorted.
Qed.



End SortFacts.

Lemma sizeCompare_key a b : sizeCompare a b = sizeKey b - sizeKey a.
Proof. reflexivity. Qed.

(** ** Lists *)

Lemma filter_Forall_id {A} (P : A -> Prop) `{!forall x, Decision (P x)} (l : list A) :
  Forall P l -> filter P l = l.
Proof.
  induction 1 as [|x l Hx _ IH]; [done|].
  by rewrite filter_cons_True, IH.
Qed.

Lemma filter_Forall_nil {A} (P : A -> Prop) `{!forall x, Decision (P x)} (l : list A) :
  Forall (fun x => ~ P x) l -> filter P l = [].
Proof.
  induction 1 as [|x l Hx _ IH]; [done|].
  by rewrite filter_cons_False.
Qed.

Lemma Forall_imap {A B} (P : B -> Prop) (f : nat -> A -> B) (l : list A) :
  (forall i x, P (f i x)) -> Forall P (imap f l).
Proof.
  revert f. induction l as [|x l IH]; intros f Hf; simpl; constructor; [done|].
  apply IH. intros i y. apply Hf.
Qed.

Lemma imap_Forall2_eq {A B} (R : A -> A -> Prop) (f g : nat -> A -> B) (l1 l2 : list A) :
  Forall2 R l1 l2 ->
  (forall i x y, R x y -> f i x = g i y) ->
  imap f l1 = imap g l2.
Proof.
  intros H. revert f g. induction H as [|x y l1 l2 Hxy _ IH]; intros f g Hfg; simpl.
  - done.
  - f_equal; [by apply Hfg|]. apply IH. intros i a b. apply Hfg.
Qed.

Lemma filter_Forall2 {A} (R : A -> A -> Prop) (P : A -> Prop)
    `{!forall x, Decision (P x)} (l1 l2 : list A) :
  (forall x y, R x y -> P x <-> P y) ->
  Forall2 R l1 l2 -> Forall2 R (filter P l1) (filter P l2).
Proof.
  intros HP. induction 1 as [|x y l1 l2 Hxy _ IH]; [constructor|].
  rewrite !filter_cons.
  destruct (decide (P x)) as [Hx|Hx], (decide (P y)) as [Hy|Hy];
    try (by constructor); try done.
  - by apply (HP _ _ Hxy) in Hx.
  - by apply (HP _ _ Hxy) in Hy.
Qed.

Lemma sort_insert_Forall2 {A} (R : A -> A -> Prop) (cmp : A -> A -> Z) x y l1 l2 :
  (forall a b a' b', R a a' -> R b b' -> cmp a b = cmp a' b') ->
  R x y -> Forall2 R l1 l2 ->
  Forall2 R (sort_insert cmp x l1) (sort_insert cmp y l2).
Proof.
  intros Hc Hxy. induction 1 as [|a b l1 l2 Hab Hl IH]; simpl.
  - by repeat constructor.
  - rewrite (Hc x a y b Hxy Hab).
    case_decide; repeat constructor; done.
Qed.

Lemma sort_Forall2 {A} (R : A -> A -> Prop) (cmp : A -> A -> Z) l1 l2 :
  (forall a b a' b', R a a' -> R b b' -> cmp a b = cmp a' b') ->
  Forall2 R l1 l2 -> Forall2 R (sort cmp l1) (sort cmp l2).
Proof.
  intros Hc. induction 1 as [|x y l1 l2 Hxy _ IH]; simpl; [constructor|].
  by apply sort_insert_Forall2.
Qed.

Lemma omap_submseteq {A B} (f : A -> option B) (l k : list A) :
  l ⊆+ k -> omap f l ⊆+ omap f k.
Proof.
  induction 1 as [|x l k _ IH|x y l|x l k _ IH|l1 l2 l3 _ IH1 _ IH2]; simpl.
  - done.
  - destruct (f x); [by apply submseteq_skip|done].
  - destruct (f x), (f y); try done. apply submseteq_swap.
  - destruct (f x); [by apply submseteq_cons|done].
  - by etrans.
Qed.

Lemma submseteq_NoDup {A} (l k : list A) : l ⊆+ k -> NoDup k -> NoDup l.
Proof.
  intros (k' & Hk)%submseteq_Permutation. rewrite Hk, NoDup_app. tauto.
Qed.

Lemma filter_disjoint_submseteq {A} (P Q : A -> Prop)
    `{!forall x, Decision (P x)} `{!forall x, Decision (Q x)} (l : list A) :
  (forall x, P x -> Q x -> False) -> filter P l ++ filter Q l ⊆+ l.
Proof.
  intros HPQ. induction l as [|x l IH]; [done|].
  rewrite !filter_cons.
  destruct (decide (P x)) as [HP|HP], (decide (Q x)) as [HQ|HQ].
  - destruct (HPQ x HP HQ).
  - simpl. by apply submseteq_skip.
  - rewrite <- Permutation_middle. by apply submseteq_skip.
  - by apply submseteq_cons.
Qed.

Lemma StronglySorted_lookup_lt {A} (R : A -> A -> Prop) (l : list A) i j x y :
  StronglySorted R l -> l !! i = Some x -> l !! j = Some y -> (i < j)%nat -> R x y.
Proof.
  intros Hl. revert i j. induction Hl as [|a l _ IH Ha]; intros i j Hi Hj Hij.
  - done.
  - destruct j as [|j]; [lia|]. destruct i as [|i]; simpl in *.
    + injection Hi as <-. rewrite Forall_forall in Ha.
      apply Ha. by eapply list_elem_of_lookup_2.
    + eapply IH; [done..|lia].
Qed.

Lemma StronglySorted_take {A} (R : A -> A -> Prop) (l : list A) n :
  StronglySorted R l -> StronglySorted R (take n l).
Proof.
  intros Hl. revert n. induction Hl as [|a l _ IH Ha]; intros [|n]; simpl;
    try constructor; [done|].
  eapply Forall_forall. intros z Hz. rewrite Forall_forall in Ha. apply Ha.
  by eapply elem_of_submseteq; [|apply submseteq_take].
Qed.

(** ** The tree normalizer *)

Lemma topDirs_spec t : topDirs t = spec_topLevelDirectories t.
Proof.
  unfold topDirs, dirs, spec_topLevelDirectories. f_equal.
  rewrite list_filter_filter. apply list_filter_iff. intros e.
  destruct (includes (TreeEntry.path e) "/"%u16); simpl; intuition congruence.
Qed.


Lemma topDirs_length t : (length (topDirs t) <= 16)%nat.
Proof. unfold topDirs. rewrite length_take. lia. Qed.

Lemma topDirs_Forall t :
  Forall (fun e => TreeEntry.type e = "tree"
                   /\ includes (TreeEntry.path e) "/"%u16 = false) (topDirs t).
Proof.
  rewrite topDirs_spec. unfold spec_topLevelDirectories.
  apply Forall_take, Forall_forall. intros e He.
  by apply list_elem_of_filter in He as [? _].
Qed.

Lemma topFiles_length t : (length (topFiles t) <= 8)%nat.
Proof. unfold topFiles. rewrite length_take. lia. Qed.

Lemma topFiles_submseteq t :
  topFiles t ⊆+ filter (fun item => TreeEntry.type item = "blob") t.
Proof.
  unfold topFiles. etrans; [apply submseteq_take|].
  by rewrite (sort_Permutation sizeCompare).
Qed.


Lemma topFiles_sorted t : StronglySorted sizeDescending (topFiles t).
Proof.
  unfold topFiles. apply StronglySorted_take.
  apply (sort_sorted sizeCompare sizeKey sizeCompare_key).
Qed.

Lemma selected_submseteq t : topDirs t ++ topFiles t ⊆+ t.
Proof.
  etrans; [|apply (filter_disjoint_submseteq
                     (fun e => TreeEntry.type e = "tree")
                     (fun e => TreeEntry.type e = "blob"))].
  - apply submseteq_app; [|apply topFiles_submseteq].
    unfold topDirs, dirs. etrans; [apply submseteq_take|].
    apply sublist_submseteq, sublist_filter.
  - intros e H1 H2. rewrite H1 in H2. discriminate.
Qed.

(** ** Shape of the primary layout *)

Section Layout.
Variables Math_sin Math_cos : float -> float.
Variable lower : jsstring -> jsstring.

Local Abbreviation placeDirectory := (placeDirectory Math_sin Math_cos lower).
Local Abbreviation placeFile := (placeFile Math_sin Math_cos).
Local Abbreviation placedDirs := (placedDirs Math_sin Math_cos lower).
Local Abbreviation placedFiles := (placedFiles Math_sin Math_cos).
Local Abbreviation primaryLayout := (primaryLayout Math_sin Math_cos lower).
Local Abbreviation buildCityLayout := (buildCityLayout Math_sin Math_cos lower).

Lemma buildCityLayout_primary t m :
  t <> [] -> buildCityLayout (Some t) (Some m) = Return (primaryLayout t m).
Proof. by destruct t. Qed.

Lemma buildCityLayout_fallback t m :
  noData t -> buildCityLayout t m = Return (buildDemoCity m).
Proof. by intros [-> | ->]. Qed.

Lemma placedDirs_type t :
  Forall (fun n => Island.type n = directory) (fst <$> placedDirs t).
Proof. unfold placedDirs. rewrite fmap_imap. by apply Forall_imap. Qed.

Lemma placedFiles_type t :
  Forall (fun n => Island.type n = sun \/ Island.type n = star) (placedFiles t).
Proof.
  apply Forall_imap. intros i f. unfold placeFile; simpl.
  case_decide; auto.
Qed.

Lemma primary_core_nodes t m :
  nodesOfType core (primaryLayout t m) = [coreStation t m].
Proof.
  unfold nodesOfType; simpl. rewrite filter_cons_True by done.
  rewrite filter_app, !filter_Forall_nil; [done|..].
  - eapply Forall_impl; [apply placedFiles_type|]. simpl. intros n [-> | ->]; done.
  - eapply Forall_impl; [apply placedDirs_type|]. simpl. by intros n ->.
Qed.

Lemma primary_directory_nodes t m :
  nodesOfType directory (primaryLayout t m) = fst <$> placedDirs t.
Proof.
  unfold nodesOfType; simpl. rewrite filter_cons_False by done.
  rewrite filter_app, filter_Forall_id by apply placedDirs_type.
  rewrite filter_Forall_nil; [by rewrite app_nil_r|].
  eapply Forall_impl; [apply placedFiles_type|]. simpl. intros n [-> | ->]; done.
Qed.

Lemma primary_file_nodes t m :
  fileNodes (primaryLayout t m) = placedFiles t.
Proof.
  unfold fileNodes; simpl. rewrite filter_cons_False by (simpl; intuition discriminate).
  rewrite filter_app, (filter_Forall_id _ (placedFiles t)) by apply placedFiles_type.
  rewrite filter_Forall_nil; [done|].
  eapply Forall_impl; [apply placedDirs_type|]. simpl. intros n ->.
  intuition discriminate.
Qed.

Lemma primary_lookup_directory t m i dir :
  topDirs t !! i = Some dir ->
  islands (primaryLayout t m) !! S i
  = Some (fst (placeDirectory (length (topDirs t)) i dir)).
Proof.
  intros Hi. unfold primaryLayout. cbn [islands]. rewrite lookup_cons.
  rewrite lookup_app_l.
  - unfold placedDirs. by rewrite list_lookup_fmap, list_lookup_imap, Hi.
  - rewrite length_fmap. unfold placedDirs. rewrite length_imap.
    by eapply lookup_lt_Some.
Qed.

Lemma primary_lookup_file t m i file :
  topFiles t !! i = Some file ->
  islands (primaryLayout t m) !! S (length (topDirs t) + i)
  = Some (placeFile (length (topFiles t)) i file).
Proof.
  intros Hi. unfold primaryLayout. cbn [islands]. rewrite lookup_cons.
  rewrite lookup_app_r.
  - rewrite length_fmap. unfold placedDirs. rewrite length_imap.
    replace (length (topDirs t) + i - length (topDirs t))%nat with i by lia.
    unfold placedFiles. by rewrite list_lookup_imap, Hi.
  - rewrite length_fmap. unfold placedDirs. rewrite length_imap. lia.
Qed.
End Layout.

(** ** Determinism *)

Lemma sameEntry_topDirs l1 l2 :
  Forall2 sameEntry l1 l2 -> Forall2 sameEntry (topDirs l1) (topDirs l2).
Proof.
  intros H. unfold topDirs, dirs. apply Forall2_take.
  apply filter_Forall2; [by intros x y (-> & _)|].
  apply filter_Forall2; [by intros x y (_ & -> & _)|done].
Qed.

Lemma sameEntry_topFiles l1 l2 :
  Forall2 sameEntry l1 l2 -> Forall2 sameEntry (topFiles l1) (topFiles l2).
Proof.
  intros H. unfold topFiles. apply Forall2_take. apply sort_Forall2.
  - intros a b a' b' (_ & _ & Ha & _) (_ & _ & Hb & _).
    unfold sizeCompare. by rewrite Ha, Hb.
  - apply filter_Forall2; [by intros x y (_ & -> & _)|done].
Qed.

Lemma sameEntry_placeDirectory Math_sin Math_cos lower n i d1 d2 :
  sameEntry d1 d2 ->
  placeDirectory Math_sin Math_cos lower n i d1 = placeDirectory Math_sin Math_cos lower n i d2.
Proof. intros (Hp & _ & _ & Hs). unfold placeDirectory. by rewrite Hp, Hs. Qed.

Lemma sameEntry_placeFile Math_sin Math_cos n i f1 f2 :
  sameEntry f1 f2 ->
  placeFile Math_sin Math_cos n i f1 = placeFile Math_sin Math_cos n i f2.
Proof. intros (Hp & _ & Hz & Hs). unfold placeFile. by rewrite Hp, Hz, Hs. Qed.

Lemma sameEntry_primaryLayout Math_sin Math_cos lower l1 l2 a b :
  Forall2 sameEntry l1 l2 -> RepoMeta.name a = RepoMeta.name b ->
  primaryLayout Math_sin Math_cos lower l1 a = primaryLayout Math_sin Math_cos lower l2 b.
Proof.
  intros Hl Hm.
  assert (placedDirs Math_sin Math_cos lower l1 = placedDirs Math_sin Math_cos lower l2) as Hd.
  { unfold placedDirs.
    rewrite (Forall2_length _ _ _ (sameEntry_topDirs _ _ Hl)).
    eapply imap_Forall2_eq; [by apply sameEntry_topDirs|].
    intros i x y. apply sameEntry_placeDirectory. }
  assert (placedFiles Math_sin Math_cos l1 = placedFiles Math_sin Math_cos l2) as Hf.
  { unfold placedFiles.
    rewrite (Forall2_length _ _ _ (sameEntry_topFiles _ _ Hl)).
    eapply imap_Forall2_eq; [by apply sameEntry_topFiles|].
    intros i x y. apply sameEntry_placeFile. }
  unfold primaryLayout, coreStation.
  by rewrite Hd, Hf, Hm, (Forall2_length _ _ _ Hl).
Qed.

(** C1. Determinism: the result of [buildCityLayout] is a function of the
    paths, types, sizes and identifiers of the entries, in their order, and
    of the repository name, and of nothing else.  Two calls whose inputs
    agree on these return the same completion, field by field (every id,
    position, scale, altitude and edge), whatever the entries' other
    properties and the repository's other fields (among them the
    clock-derived commit estimate) are.  The embedding has no clock, random
    source or global to read, as the module reads none; the host's sine,
    cosine and case mapping are the same functions in both calls. *)
Theorem buildCityLayout_deterministic Math_sin Math_cos lower t1 t2 m1 m2 :
  sameTree t1 t2 -> sameMeta m1 m2 ->
  buildCityLayout Math_sin Math_cos lower t1 m1 = buildCityLayout Math_sin Math_cos lower t2 m2.
Proof.
  intros Ht Hm.
  assert (buildDemoCity m1 = buildDemoCity m2) as Hdemo.
  { assert (demoName m1 = demoName m2) as Hn.
    { unfold demoName. destruct m1 as [a|], m2 as [b|]; simpl in Hm; try done.
      cbn [mbind option_bind]. by rewrite Hm. }
    unfold buildDemoCity. by rewrite Hn. }
  destruct t1 as [l1|], t2 as [l2|]; simpl in Ht; try done.
  - destruct Ht as [|x y l1 l2 Hxy Hl];
      [cbn [buildCityLayout]; by rewrite Hdemo|].
    assert (Forall2 sameEntry (x :: l1) (y :: l2)) as Hall by by constructor.
    destruct m1 as [a|], m2 as [b|]; simpl in Hm; try done.
    cbn [buildCityLayout]. f_equal. by apply sameEntry_primaryLayout.
  - cbn [buildCityLayout]. by rewrite Hdemo.
Qed.

(** ** The core node *)

(** C2. Core node invariant: whatever the input, the node list a call returns
    holds exactly one node of the Core variant, at (0,0,0), of scale 2.5 and
    altitude 0; this covers the fallback layout.  The one call that returns
    no list is the primary path on a missing [repoMeta], which raises. *)
Theorem core_node_invariant Math_sin Math_cos lower t m :
  match buildCityLayout Math_sin Math_cos lower t m with
  | Return L =>
      exists c, nodesOfType core L = [c]
        /\ Island.position c = origin
        /\ Island.scale c = 2.5%float
        /\ Island.altitude c = Num 0
  | Throw _ => m = None /\ ~ noData t
  end.
Proof.
  destruct t as [[|x l]|].
  - cbn [buildCityLayout]. eexists. split; [by vm_compute|]. done.
  - destruct m as [a|]; cbn [buildCityLayout].
    + eexists. split; [apply primary_core_nodes|]. done.
    + split; [done|]. intros [H|H]; discriminate.
  - cbn [buildCityLayout]. eexists. split; [by vm_compute|]. done.
Qed.

(** ** The fallback *)

(** C3. Fallback on insufficient input: with a missing or an empty tree the
    call raises nothing, whatever [repoMeta] is, and returns the demo layout:
    13 nodes and 10 edges, never an empty node list.  Its Core node is named
    after [repoMeta] ("DemoRepo" when [repoMeta] is missing); all other nodes
    and all edges are constants that do not depend on the input. *)
Theorem fallback_on_insufficient_input Math_sin Math_cos lower t m :
  noData t ->
  exists L,
    buildCityLayout Math_sin Math_cos lower t m = Return L
    /\ L = buildDemoCity m
    /\ islands L <> []
    /\ length (islands L) = 13%nat
    /\ length (connections L) = 10%nat
    /\ (exists c, head (islands L) = Some c
          /\ Island.type c = core
          /\ Island.name c = Some (demoName m))
    /\ (m = None -> demoName m = "DemoRepo")
    /\ (forall r s, m = Some r -> RepoMeta.name r = Some s -> s <> "" ->
          demoName m = s)
    /\ (forall r, m = Some r ->
          RepoMeta.name r = None \/ RepoMeta.name r = Some "" ->
          demoName m = "DemoRepo")
    /\ tail (islands L) = tail (islands (buildDemoCity None))
    /\ connections L = connections (buildDemoCity None)
    /\ nodeIds L
       = [ "core-station"; "src"; "api"; "components"; "utils"; "hooks"; "store";
           "assets"; "tests"; "docs"; "main-file"; "config-file"; "readme" ].
Proof.
  intros Ht. exists (buildDemoCity m).
  split; [by apply buildCityLayout_fallback|].
  repeat split; try done.
  - eexists. by split.
  - by intros ->.
  - intros r s -> Hs Hne. unfold demoName; simpl. rewrite Hs; simpl.
    by case_decide.
  - intros r -> [Hs|Hs]; unfold demoName; simpl; by rewrite Hs.
Qed.

Lemma fallback_on_insufficient_input_witness :
  noData (Some [])
  /\ forall Math_sin Math_cos lower,
       buildCityLayout Math_sin Math_cos lower (Some []) None
       = Return (buildDemoCity None).
Proof.
  split; [by right|]. intros Math_sin Math_cos lower.
  destruct (fallback_on_insufficient_input Math_sin Math_cos lower (Some []) None)
    as (L & HL & -> & _); [by right|done].
Defined.

Lemma buildCityLayout_deterministic_witness :
  sameTree (Some scenario) (Some scenarioRefetched)
  /\ sameMeta (Some demoMeta) (Some demoMetaLater)
  /\ forall Math_sin Math_cos lower,
       buildCityLayout Math_sin Math_cos lower (Some scenario) (Some demoMeta)
       = buildCityLayout Math_sin Math_cos lower (Some scenarioRefetched) (Some demoMetaLater).
Proof.
  assert (sameTree (Some scenario) (Some scenarioRefetched)) as Ht.
  { simpl. unfold scenario, scenarioRefetched. repeat constructor. }
  assert (sameMeta (Some demoMeta) (Some demoMetaLater)) as Hm by reflexivity.
  split; [exact Ht|]. split; [exact Hm|].
  intros Math_sin Math_cos lower.
  exact (buildCityLayout_deterministic Math_sin Math_cos lower _ _ _ _ Ht Hm).
Defined.

(** ** The tree normalizer contract *)

Lemma placed_directory_paths Math_sin Math_cos lower n l :
  Island.originalPath <$> (fst <$> imap (placeDirectory Math_sin Math_cos lower n) l)
  = (Some ∘ TreeEntry.path) <$> l.
Proof.
  rewrite !fmap_imap. rewrite <- imap_const. by apply imap_ext.
Qed.



(** ** Edges *)


(** On a numeric altitude the two comparisons are those of the integers. *)
Lemma edgeOfDirectory_number c d n :
  edgeOfDirectory c d -> Island.altitude d = Num n ->
  (Connection.isPrimary c = true <-> 7 < n)
  /\ (Connection.thickness c = 2%float <-> 8 < n).
Proof.
  intros (_ & _ & _ & Hp & Ht) Hn. rewrite Hp, Ht, Hn. cbn [js_gt].
  split; [apply bool_decide_eq_true|].
  case_bool_decide; split; try done; try lia.
Qed.


(** ** Directory placement *)





(** ** The altitude resolver *)

Lemma getAltitude_table lower name depth n :
  ALTITUDE_MAP !! toLowerCase lower name = Some n -> getAltitude lower name depth = Num n.
Proof. intros H. unfold getAltitude, ALTITUDE_MAP_get. by rewrite H. Qed.

(** What holds of the resolver: a name whose lower case is neither a key of
    the table nor a property name of [Object.prototype] gets
    max(0, 8 - 2*depth). *)
Lemma getAltitude_unknown lower name depth :
  ALTITUDE_MAP !! toLowerCase lower name = None ->
  toLowerCase lower name ∉ OBJECT_PROTOTYPE_KEYS ->
  getAltitude lower name depth = Num (Z.max 0 (8 - depth * 2)).
Proof.
  intros H1 H2. unfold getAltitude, ALTITUDE_MAP_get. rewrite H1.
  by rewrite decide_False.
Qed.

Lemma getAltitude_unknown_monotone lower name d1 d2 :
  ALTITUDE_MAP !! toLowerCase lower name = None ->
  toLowerCase lower name ∉ OBJECT_PROTOTYPE_KEYS ->
  0 <= d1 <= d2 ->
  exists a1 a2, getAltitude lower name d1 = Num a1 /\ getAltitude lower name d2 = Num a2
    /\ 0 <= a2 <= a1.
Proof.
  intros H1 H2 Hd. rewrite !getAltitude_unknown by done.
  eexists _, _. split; [done|]. split; [done|]. lia.
Qed.

(** The own entries of the table are numbers from 0 to 12. *)
Lemma ALTITUDE_MAP_range key n : ALTITUDE_MAP !! key = Some n -> 0 <= n <= 12.
Proof.
  intros H. apply elem_of_map_to_list in H.
  assert (Forall (fun kv : jsstring * Z => 0 <= kv.2 <= 12)
            (map_to_list ALTITUDE_MAP)) as Hall.
  { vm_compute map_to_list. repeat constructor; simpl; lia. }
  rewrite Forall_forall in Hall. exact (Hall _ H).
Qed.

(** C7. The altitude resolver is not total on numbers.  The name
    "constructor" is not a key of the altitude table, so the specification
    gives it max(0, 8 - 2*depth); the property read [ALTITUDE_MAP[key]]
    finds the function inherited from [Object.prototype] instead, and
    [getAltitude] returns that function: no number, finite or not.  In the
    layout the scale 0.8 + altitude/15 of such a directory is NaN. *)
Theorem getAltitude_constructor_is_no_number lower :
  ALTITUDE_MAP !! toLowerCase lower "constructor" = None
  /\ getAltitude lower "constructor" 0 = Inherited "constructor"
  /\ is_number (getAltitude lower "constructor" 0) = false
  /\ getAltitude lower "constructor" 0 <> Num (Z.max 0 (8 - 0 * 2))
  /\ spec_scale (getAltitude lower "constructor" 0) = PrimFloat.nan.
Proof. repeat split; try by vm_compute. Qed.

(** ** File nodes *)

Lemma sizeToScale_monotone s1 s2 :
  s1 <= s2 -> PrimFloat.leb (sizeToScale s1) (sizeToScale s2) = true.
Proof.
  intros H. unfold sizeToScale.
  repeat case_decide; try lia; reflexivity.
Qed.

Lemma sizeToScale_steps s :
  (s < 10000 -> sizeToScale s = 0.6%float)
  /\ (10000 <= s < 50000 -> sizeToScale s = 0.9%float)
  /\ (50000 <= s < 200000 -> sizeToScale s = 1.2%float)
  /\ (200000 <= s < 1000000 -> sizeToScale s = 1.6%float)
  /\ (1000000 <= s -> sizeToScale s = 2.0%float).
Proof.
  unfold sizeToScale. repeat split; intros H; repeat case_decide; try lia; reflexivity.
Qed.

Lemma sizeToScale_placedSize file s :
  TreeEntry.size file = Some s -> sizeToScale (placedSize file) = sizeToScale s.
Proof.
  intros H. unfold placedSize, num_or. rewrite H.
  case_decide as Hs; [by subst s|done].
Qed.

Lemma placedSize_large file :
  50000 < placedSize file <-> exists s, TreeEntry.size file = Some s /\ 50000 < s.
Proof.
  unfold placedSize, num_or. destruct (TreeEntry.size file) as [s|].
  - case_decide as Hs.
    + split; [lia|]. intros (s' & [= <-] & H). lia.
    + split; [by exists s|]. by intros (s' & [= <-] & H).
  - split; [lia|]. by intros (s' & ? & _).
Qed.

(** C8. File node classification and scale: the node of a selected top file
    is a Sun exactly when the file's size exceeds 50000 bytes and a Star
    otherwise; its scale is the step function of the size (0.6 below 10000,
    0.9 below 50000, 1.2 below 200000, 1.6 below 1000000, 2.0 from there on),
    which never decreases as the size grows; a file of 5,000,000 bytes gets a
    strictly greater scale than one of 5,000 bytes. *)
Theorem file_node_classification Math_sin Math_cos lower t m i file :
  topFiles t !! i = Some file ->
  exists L node,
    buildCityLayout Math_sin Math_cos lower (Some t) (Some m) = Return L
    /\ fileNodes L !! i = Some node
    /\ Island.originalPath node = Some (TreeEntry.path file)
    /\ (Island.type node = sun <->
        exists s, TreeEntry.size file = Some s /\ 50000 < s)
    /\ (Island.type node = star <->
        ~ exists s, TreeEntry.size file = Some s /\ 50000 < s)
    /\ Island.scale node = sizeToScale (placedSize file)
    /\ (forall s, TreeEntry.size file = Some s -> Island.scale node = sizeToScale s)
    /\ (forall s,
          (s < 10000 -> sizeToScale s = 0.6%float)
          /\ (10000 <= s < 50000 -> sizeToScale s = 0.9%float)
          /\ (50000 <= s < 200000 -> sizeToScale s = 1.2%float)
          /\ (200000 <= s < 1000000 -> sizeToScale s = 1.6%float)
          /\ (1000000 <= s -> sizeToScale s = 2.0%float))
    /\ (forall s1 s2, s1 <= s2 ->
          PrimFloat.leb (sizeToScale s1) (sizeToScale s2) = true)
    /\ PrimFloat.ltb (sizeToScale 5000) (sizeToScale 5000000) = true.
Proof.
  intros Hfile.
  assert (t <> []) as Ht by (intros ->; done).
  exists (primaryLayout Math_sin Math_cos lower t m),
         (placeFile Math_sin Math_cos (length (topFiles t)) i file).
  split; [by apply buildCityLayout_primary|].
  split.
  { rewrite primary_file_nodes. unfold placedFiles.
    by rewrite list_lookup_imap, Hfile. }
  unfold placeFile; cbn [Island.originalPath Island.type Island.scale].
  fold (placedSize file).
  split; [reflexivity|].
  split.
  { rewrite <- placedSize_large. case_decide; split; try done. }
  split.
  { rewrite <- placedSize_large. case_decide; split; try done. }
  split; [reflexivity|].
  split; [intros s Hs; by apply sizeToScale_placedSize|].
  split; [apply sizeToScale_steps|].
  split; [apply sizeToScale_monotone|reflexivity].
Qed.

Lemma file_node_classification_witness :
  topFiles withUnsizedFile !! 0%nat = Some (entry "big.bin" "blob" (Some 5000000) None)
  /\ forall Math_sin Math_cos lower, exists L node,
       buildCityLayout Math_sin Math_cos lower (Some withUnsizedFile) (Some demoMeta)
       = Return L
       /\ fileNodes L !! 0%nat = Some node
       /\ Island.type node = sun
       /\ Island.scale node = 2.0%float.
Proof.
  split; [reflexivity|]. intros Math_sin Math_cos lower.
  destruct (file_node_classification Math_sin Math_cos lower withUnsizedFile demoMeta 0
              (entry "big.bin" "blob" (Some 5000000) None) eq_refl)
    as (L & node & HL & Hnode & _ & Hsun & _ & Hscale & _).
  exists L, node. split; [done|]. split; [done|]. split.
  - apply Hsun. exists 5000000. by split.
  - rewrite Hscale. reflexivity.
Defined.

(** ** Files without a size *)

(** C10. A file entry whose size is absent (or 0) is ranked by the sort with
    key 0, behind every file of positive size, yet when it is among the
    selected files it is placed with size 1000: its node is a Star of scale
    0.6 and altitude 2, and the [fileSize] it records is 1000. *)
Theorem unsized_file_placement Math_sin Math_cos lower t m i file :
  topFiles t !! i = Some file ->
  TreeEntry.size file = None \/ TreeEntry.size file = Some 0 ->
  sizeKey file = 0
  /\ placedSize file = 1000
  /\ (forall j g, topFiles t !! j = Some g -> 0 < sizeKey g -> (j < i)%nat)
  /\ exists L node,
       buildCityLayout Math_sin Math_cos lower (Some t) (Some m) = Return L
       /\ fileNodes L !! i = Some node
       /\ Island.originalPath node = Some (TreeEntry.path file)
       /\ Island.type node = star
       /\ Island.scale node = 0.6%float
       /\ Island.altitude node = Num 2
       /\ Island.fileSize node = Some 1000.
Proof.
  intros Hfile Hsize.
  assert (sizeKey file = 0) as Hkey.
  { unfold sizeKey. by destruct Hsize as [-> | ->]. }
  assert (placedSize file = 1000) as Hplaced.
  { unfold placedSize. by destruct Hsize as [-> | ->]. }
  assert (t <> []) as Ht by (intros ->; done).
  split; [done|]. split; [done|]. split.
  { intros j g Hg Hpos.
    destruct (decide (j < i)%nat) as [|Hge]; [done|]. exfalso.
    destruct (decide (j = i)) as [->|Hne].
    - rewrite Hfile in Hg. injection Hg as <-. lia.
    - pose proof (StronglySorted_lookup_lt _ _ i j file g (topFiles_sorted t)
                    Hfile Hg ltac:(lia)) as Hord.
      unfold sizeDescending in Hord. lia. }
  exists (primaryLayout Math_sin Math_cos lower t m),
         (placeFile Math_sin Math_cos (length (topFiles t)) i file).
  split; [by apply buildCityLayout_primary|].
  split.
  { rewrite primary_file_nodes. unfold placedFiles.
    by rewrite list_lookup_imap, Hfile. }
  unfold placeFile; cbn [Island.originalPath Island.type Island.scale
    Island.altitude Island.fileSize].
  fold (placedSize file). rewrite Hplaced.
  repeat split; reflexivity.
Qed.

Lemma unsized_file_placement_witness :
  topFiles withUnsizedFile !! 2%nat = Some (entry "notes.txt" "blob" None None)
  /\ forall Math_sin Math_cos lower, exists L node,
       buildCityLayout Math_sin Math_cos lower (Some withUnsizedFile) (Some demoMeta)
       = Return L
       /\ fileNodes L !! 2%nat = Some node
       /\ Island.type node = star
       /\ Island.fileSize node = Some 1000.
Proof.
  split; [reflexivity|]. intros Math_sin Math_cos lower.
  destruct (unsized_file_placement Math_sin Math_cos lower withUnsizedFile demoMeta 2
              (entry "notes.txt" "blob" None None) eq_refl (or_introl eq_refl))
    as (_ & _ & _ & L & node & HL & Hnode & _ & Hstar & _ & _ & Hsize).
  by exists L, node.
Defined.

(** ** Node ids *)

Lemma slotId_cases slot :
  (identifier slot.1 = Some (slotId slot))
  \/ (identifier slot.1 = None /\ slotId slot = slot.2).
Proof.
  unfold slotId, identifier, str_or. destruct (TreeEntry.sha slot.1) as [s|]; [|by right].
  case_decide; [by right|by left].
Qed.

Lemma slotId_elem slots x :
  x ∈ slotId <$> slots -> x ∈ omap identifier slots.*1 \/ x ∈ slots.*2.
Proof.
  intros (slot & -> & Hin)%list_elem_of_fmap.
  destruct (slotId_cases slot) as [H|[_ H]].
  - left. apply list_elem_of_omap. exists slot.1. split; [|done].
    apply list_elem_of_fmap. by exists slot.
  - right. rewrite H. apply list_elem_of_fmap. by exists slot.
Qed.

(** Ids are distinct when the identifiers are, the fallbacks are, and no
    identifier is spelled like a fallback. *)
Lemma slotId_NoDup (R : list jsstring) slots :
  NoDup (omap identifier slots.*1) ->
  Forall (fun s => s ∉ R) (omap identifier slots.*1) ->
  NoDup slots.*2 ->
  Forall (fun s => s ∈ R) slots.*2 ->
  NoDup (slotId <$> slots).
Proof.
  induction slots as [|slot slots IH]; intros Hid HidR Hfb HfbR; [constructor|].
  rewrite fmap_cons in Hid. rewrite fmap_cons in HidR.
  rewrite fmap_cons in Hfb. rewrite fmap_cons in HfbR. rewrite fmap_cons.
  cbn [omap list_omap] in Hid, HidR.
  apply NoDup_cons in Hfb as [Hfb1 Hfb2].
  apply Forall_cons in HfbR as [HfbR1 HfbR2].
  destruct (slotId_cases slot) as [Hs|[Hs Hd]]; rewrite Hs in Hid, HidR.
  - apply NoDup_cons in Hid as [Hid1 Hid2].
    apply Forall_cons in HidR as [HidR1 HidR2].
    constructor; [|by apply IH].
    intros [Hin|Hin]%slotId_elem; [done|].
    rewrite Forall_forall in HfbR2. by apply HidR1, HfbR2.
  - constructor; [|by apply IH].
    rewrite Hd. intros [Hin|Hin]%slotId_elem; [|done].
    rewrite Forall_forall in HidR. by apply (HidR _ Hin).
Qed.

Lemma primary_nodeIds Math_sin Math_cos lower t m :
  nodeIds (primaryLayout Math_sin Math_cos lower t m) = slotId <$> idSlots t.
Proof.
  unfold nodeIds, primaryLayout, idSlots, placedDirs, placedFiles; cbn [islands].
  rewrite !fmap_cons, !fmap_app, !fmap_imap. f_equal.
Qed.

Lemma idSlots_entries t :
  (idSlots t).*1 = entry "" "" None None :: topDirs t ++ topFiles t.
Proof.
  unfold idSlots. rewrite fmap_cons, fmap_app, !fmap_imap. cbn [fst].
  f_equal. f_equal.
  - rewrite <- (list_fmap_id (topDirs t)) at 2. rewrite <- imap_const. by apply imap_ext.
  - rewrite <- (list_fmap_id (topFiles t)) at 2. rewrite <- imap_const. by apply imap_ext.
Qed.

Lemma imap_fallbacks {A} (g : nat -> jsstring) (l : list A) :
  (imap (fun i d => (d, g i)) l).*2 = g <$> seq 0 (length l).
Proof. rewrite fmap_imap, <- imap_seq_0. by apply imap_ext. Qed.

Lemma fallbacks_sublist (g : nat -> jsstring) (n k : nat) :
  (n <= k)%nat -> g <$> seq 0 n `sublist_of` g <$> seq 0 k.
Proof.
  intros H. replace k with (n + (k - n))%nat by lia.
  rewrite seq_app, fmap_app. by apply sublist_inserts_r.
Qed.

Lemma idSlots_fallbacks t :
  (idSlots t).*2 `sublist_of` reservedIds.
Proof.
  unfold idSlots, reservedIds. rewrite fmap_cons, fmap_app, !imap_fallbacks.
  cbn [snd]. apply sublist_skip, sublist_app.
  - apply fallbacks_sublist, topDirs_length.
  - apply fallbacks_sublist, topFiles_length.
Qed.

Lemma reservedIds_NoDup : NoDup reservedIds.
Proof. apply (bool_decide_unpack _). by vm_compute. Qed.

Lemma demo_nodeIds_NoDup m : NoDup (nodeIds (buildDemoCity m)).
Proof. apply (bool_decide_unpack _). by vm_compute. Qed.

(** C9. Node ids are not unique on every input with unique paths.  The id of
    a node is the entry's identifier (its [sha]) when it has one, and a
    positional fallback otherwise; the path does not enter.  Two files of
    different paths and the same content have the same blob sha, and their
    two nodes get the same id: the id list of the layout has a repeat. *)
Theorem twins_share_an_id :
  uniquePaths twins
  /\ forall Math_sin Math_cos lower, exists L,
       buildCityLayout Math_sin Math_cos lower (Some twins) (Some demoMeta) = Return L
       /\ nodeIds L
          = [ "core-station";
              "8f71f43fee3f78649d238238cbde51e6d7055c82";
              "8f71f43fee3f78649d238238cbde51e6d7055c82" ]
       /\ ~ NoDup (nodeIds L).
Proof.
  split.
  { unfold uniquePaths. apply (bool_decide_unpack _). by vm_compute. }
  intros Math_sin Math_cos lower. eexists. split; [reflexivity|].
  assert (nodeIds (primaryLayout Math_sin Math_cos lower twins demoMeta)
          = [ "core-station";
              "8f71f43fee3f78649d238238cbde51e6d7055c82";
              "8f71f43fee3f78649d238238cbde51e6d7055c82" ]) as Hids.
  { rewrite primary_nodeIds. by vm_compute. }
  split; [exact Hids|]. rewrite Hids.
  intros Hnd. apply NoDup_cons in Hnd as [_ Hnd].
  apply NoDup_cons in Hnd as [Hnotin _]. apply Hnotin. by left.
Qed.

(** X20. When node ids are unique.  The ids of the layout are pairwise
    distinct as soon as the identifiers of the entries it places (the
    selected directories and files; no other entry feeds an id) are pairwise
    distinct and none of them is spelled like an id the layout hands out
    itself ("core-station", "dir-0" .. "dir-15", "file-0" .. "file-7").
    Entries that are not placed may share an identifier.  The ids of the
    fallback layout are always distinct. *)
Theorem distinct_identifiers_give_unique_ids Math_sin Math_cos lower t m :
  NoDup (omap identifier (topDirs t ++ topFiles t)) ->
  Forall (fun s => s ∉ reservedIds) (omap identifier (topDirs t ++ topFiles t)) ->
  exists L,
    buildCityLayout Math_sin Math_cos lower (Some t) (Some m) = Return L
    /\ NoDup (nodeIds L)
    /\ forall m', NoDup (nodeIds (buildDemoCity m')).
Proof.
  intros Hid HidR.
  destruct (decide (t = [])) as [->|Ht].
  { eexists. split; [reflexivity|]. split; apply demo_nodeIds_NoDup. }
  exists (primaryLayout Math_sin Math_cos lower t m).
  split; [by apply buildCityLayout_primary|].
  split; [|apply demo_nodeIds_NoDup].
  rewrite primary_nodeIds.
  assert (omap identifier (idSlots t).*1
          = omap identifier (topDirs t ++ topFiles t)) as Hsel.
  { rewrite idSlots_entries. reflexivity. }
  apply (slotId_NoDup reservedIds).
  - by rewrite Hsel.
  - by rewrite Hsel.
  - eapply submseteq_NoDup; [|apply reservedIds_NoDup].
    apply sublist_submseteq, idSlots_fallbacks.
  - apply Forall_forall. intros s Hs.
    eapply elem_of_submseteq; [exact Hs|].
    apply sublist_submseteq, idSlots_fallbacks.
Qed.

Lemma distinct_identifiers_give_unique_ids_witness :
  NoDup (omap identifier (topDirs crowdedListing ++ topFiles crowdedListing))
  /\ Forall (fun s => s ∉ reservedIds)
       (omap identifier (topDirs crowdedListing ++ topFiles crowdedListing))
  /\ ~ NoDup (omap identifier crowdedListing)
  /\ forall Math_sin Math_cos lower, exists L,
       buildCityLayout Math_sin Math_cos lower (Some crowdedListing) (Some demoMeta)
       = Return L
       /\ NoDup (nodeIds L).
Proof.
  assert (NoDup (omap identifier (topDirs crowdedListing ++ topFiles crowdedListing)))
    as H1.
  { apply (bool_decide_unpack _). by vm_compute. }
  assert (Forall (fun s => s ∉ reservedIds)
            (omap identifier (topDirs crowdedListing ++ topFiles crowdedListing)))
    as H2.
  { apply (bool_decide_unpack _). by vm_compute. }
  split; [exact H1|]. split; [exact H2|]. split.
  { intros Hnd. apply NoDup_cons in Hnd as [Hnotin _]. apply Hnotin. by left. }
  intros Math_sin Math_cos lower.
  destruct (distinct_identifiers_give_unique_ids Math_sin Math_cos lower
              crowdedListing demoMeta H1 H2) as (L & HL & Hnd & _).
  by exists L.
Defined.

(** * Further properties of the layout *)

(** ** Size and order of the output *)

Lemma placedDirs_length Math_sin Math_cos lower t :
  length (placedDirs Math_sin Math_cos lower t) = length (topDirs t).
Proof. unfold placedDirs. apply length_imap. Qed.

Lemma placedFiles_length Math_sin Math_cos t :
  length (placedFiles Math_sin Math_cos t) = length (topFiles t).
Proof. unfold placedFiles. apply length_imap. Qed.

(** X1. Size and order of the primary layout: the node list is the core
    station, then the directory nodes, then the file nodes; it has one node
    more than there are selected directories and files, hence at most 25
    nodes, and there are as many edges as selected directories, at most 16. *)
Theorem layout_size_and_order Math_sin Math_cos lower t m :
  t <> [] ->
  exists L,
    buildCityLayout Math_sin Math_cos lower (Some t) (Some m) = Return L
    /\ islands L = nodesOfType core L ++ nodesOfType directory L ++ fileNodes L
    /\ length (nodesOfType core L) = 1%nat
    /\ length (nodesOfType directory L) = length (topDirs t)
    /\ length (fileNodes L) = length (topFiles t)
    /\ (1 <= length (islands L) <= 25)%nat
    /\ length (connections L) = length (topDirs t)
    /\ (length (connections L) <= 16)%nat.
Proof.
  intros Ht. exists (primaryLayout Math_sin Math_cos lower t m).
  split; [by apply buildCityLayout_primary|].
  rewrite primary_core_nodes, primary_directory_nodes, primary_file_nodes.
  pose proof (topDirs_length t) as Hd. pose proof (topFiles_length t) as Hf.
  unfold primaryLayout; cbn [islands connections].
  rewrite !length_cons, !length_app, !length_fmap,
    placedDirs_length, placedFiles_length.
  repeat split; try done; lia.
Qed.

Lemma layout_size_and_order_witness :
  nestedListing <> []
  /\ forall Math_sin Math_cos lower, exists L,
       buildCityLayout Math_sin Math_cos lower (Some nestedListing) (Some demoMeta)
       = Return L
       /\ length (islands L) = 5%nat
       /\ length (connections L) = 1%nat.
Proof.
  split; [done|]. intros Math_sin Math_cos lower.
  destruct (layout_size_and_order Math_sin Math_cos lower nestedListing demoMeta)
    as (L & HL & Hshape & Hc & Hd & Hf & _ & He & _); [done|].
  exists L. split; [done|]. rewrite Hshape, !length_app, Hc, Hd, Hf, He.
  split; reflexivity.
Defined.

(** ** Entries that cannot be placed *)

Lemma topDirs_placeable t : topDirs (filter placeable t) = topDirs t.
Proof.
  rewrite !topDirs_spec. unfold spec_topLevelDirectories. f_equal.
  rewrite list_filter_filter. apply list_filter_iff. intros e.
  unfold placeable. intuition.
Qed.

Lemma topFiles_placeable t : topFiles (filter placeable t) = topFiles t.
Proof.
  unfold topFiles. do 2 f_equal.
  rewrite list_filter_filter. apply list_filter_iff. intros e.
  unfold placeable. intuition.
Qed.

(** X2. Entries that are neither files nor top-level directories (nested
    directories, submodules) leave no trace in the layout beyond the core
    station: two non-empty listings with the same placeable entries, in the
    same order, give the same directory nodes, file nodes and edges, whatever
    else they contain and whatever the repository object is. *)
Theorem unplaceable_entries_are_ignored Math_sin Math_cos lower t1 t2 m1 m2 :
  t1 <> [] -> t2 <> [] ->
  filter placeable t1 = filter placeable t2 ->
  exists L1 L2,
    buildCityLayout Math_sin Math_cos lower (Some t1) (Some m1) = Return L1
    /\ buildCityLayout Math_sin Math_cos lower (Some t2) (Some m2) = Return L2
    /\ tail (islands L1) = tail (islands L2)
    /\ connections L1 = connections L2.
Proof.
  intros H1 H2 Heq.
  exists (primaryLayout Math_sin Math_cos lower t1 m1),
         (primaryLayout Math_sin Math_cos lower t2 m2).
  split; [by apply buildCityLayout_primary|].
  split; [by apply buildCityLayout_primary|].
  unfold primaryLayout, placedDirs, placedFiles; cbn [islands connections tail].
  rewrite <- (topDirs_placeable t1), <- (topFiles_placeable t1), Heq.
  by rewrite topDirs_placeable, topFiles_placeable.
Qed.

Lemma unplaceable_entries_are_ignored_witness :
  nestedListing <> [] /\ filter placeable nestedListing <> []
  /\ filter placeable nestedListing = filter placeable (filter placeable nestedListing)
  /\ forall Math_sin Math_cos lower, exists L1 L2,
       buildCityLayout Math_sin Math_cos lower (Some nestedListing) (Some demoMeta)
       = Return L1
       /\ buildCityLayout Math_sin Math_cos lower (Some (filter placeable nestedListing))
            (Some demoMetaLater) = Return L2
       /\ connections L1 = connections L2.
Proof.
  assert (filter placeable nestedListing
          = filter placeable (filter placeable nestedListing)) as Heq
    by (by vm_compute).
  assert (filter placeable nestedListing <> []) as Hne by (by vm_compute).
  split; [done|]. split; [exact Hne|]. split; [exact Heq|].
  intros Math_sin Math_cos lower.
  destruct (unplaceable_entries_are_ignored Math_sin Math_cos lower nestedListing
              (filter placeable nestedListing) demoMeta demoMetaLater
              ltac:(done) Hne Heq)
    as (L1 & L2 & HL1 & HL2 & _ & Hc).
  by exists L1, L2.
Defined.

(** ** Depth and altitude of directory nodes *)

Lemma getAltitude_numeric_range lower name a :
  getAltitude lower name 0 = Num a -> 0 <= a <= 12.
Proof.
  unfold getAltitude, ALTITUDE_MAP_get.
  destruct (ALTITUDE_MAP !! toLowerCase lower name) as [n|] eqn:Hn.
  - intros [= <-]. by eapply ALTITUDE_MAP_range.
  - case_decide; [done|]. intros [= <-]. lia.
Qed.

Lemma placeDirectory_top_level Math_sin Math_cos lower n i dir :
  includes (TreeEntry.path dir) "/"%u16 = false ->
  let node := fst (placeDirectory Math_sin Math_cos lower n i dir) in
  Island.depth node = Some 0
  /\ Island.name node = Some (TreeEntry.path dir)
  /\ Island.originalPath node = Some (TreeEntry.path dir)
  /\ Island.altitude node = getAltitude lower (TreeEntry.path dir) 0.
Proof.
  intros Hslash node. unfold node, placeDirectory.
  cbn [fst Island.depth Island.name Island.originalPath Island.altitude].
  rewrite (match_count_top_level _ _ Hslash), (basename_top_level _ Hslash).
  done.
Qed.

(** X3. The depth of a directory node is always 0: only paths without a
    slash are placed, so the node's name is its whole path and the
    depth-based lowering of [getAltitude] never takes effect.  A directory
    whose name is not listed therefore sits at altitude 8, whatever the
    repository looks like, and its edge is primary with thickness 1. *)
Theorem directory_depth_is_zero Math_sin Math_cos lower t m i dir :
  topDirs t !! i = Some dir ->
  exists L node edge,
    buildCityLayout Math_sin Math_cos lower (Some t) (Some m) = Return L
    /\ nodesOfType directory L !! i = Some node
    /\ connections L !! i = Some edge
    /\ Island.depth node = Some 0
    /\ Island.name node = Island.originalPath node
    /\ Island.originalPath node = Some (TreeEntry.path dir)
    /\ (unlisted lower (TreeEntry.path dir) ->
          Island.altitude node = Num 8
          /\ Connection.isPrimary edge = true
          /\ Connection.thickness edge = 1%float).
Proof.
  intros Hdir.
  assert (t <> []) as Ht by (intros ->; done).
  assert (includes (TreeEntry.path dir) "/"%u16 = false) as Hslash.
  { pose proof (topDirs_Forall t) as Hall. rewrite Forall_forall in Hall.
    by destruct (Hall dir (list_elem_of_lookup_2 _ _ _ Hdir)). }
  destruct (placeDirectory_top_level Math_sin Math_cos lower (length (topDirs t)) i dir Hslash)
    as (Hdepth & Hname & Hpath & Halt).
  exists (primaryLayout Math_sin Math_cos lower t m),
         (fst (placeDirectory Math_sin Math_cos lower (length (topDirs t)) i dir)),
         (snd (placeDirectory Math_sin Math_cos lower (length (topDirs t)) i dir)).
  split; [by apply buildCityLayout_primary|].
  split.
  { rewrite primary_directory_nodes. unfold placedDirs.
    by rewrite list_lookup_fmap, list_lookup_imap, Hdir. }
  split.
  { unfold primaryLayout, placedDirs; cbn [connections].
    by rewrite list_lookup_fmap, list_lookup_imap, Hdir. }
  split; [done|]. split; [by rewrite Hname, Hpath|]. split; [done|].
  intros [Hown Hproto].
  assert (getAltitude lower (TreeEntry.path dir) 0 = Num 8) as H8
    by (by rewrite getAltitude_unknown).
  split; [by rewrite Halt|].
  unfold placeDirectory; cbn [snd Connection.isPrimary Connection.thickness].
  rewrite (match_count_top_level _ _ Hslash), (basename_top_level _ Hslash), H8.
  by split.
Qed.

Lemma directory_depth_is_zero_witness :
  topDirs nestedListing !! 0%nat = Some (entry "Packages" "tree" None None)
  /\ forall Math_sin Math_cos lower,
       unlisted lower "Packages"
       /\ exists L node,
            buildCityLayout Math_sin Math_cos lower (Some nestedListing) (Some demoMeta)
            = Return L
            /\ nodesOfType directory L !! 0%nat = Some node
            /\ Island.depth node = Some 0
            /\ Island.altitude node = Num 8.
Proof.
  split; [reflexivity|]. intros Math_sin Math_cos lower.
  assert (unlisted lower "Packages") as Hun.
  { split; [by vm_compute|]. apply (bool_decide_unpack _). by vm_compute. }
  split; [exact Hun|].
  destruct (directory_depth_is_zero Math_sin Math_cos lower nestedListing demoMeta 0
              (entry "Packages" "tree" None None) eq_refl)
    as (L & node & edge & HL & Hnode & _ & Hdepth & _ & _ & Hunl).
  exists L, node. split; [done|]. split; [done|]. split; [done|].
  by destruct (Hunl Hun).
Defined.

(** ** Letter case *)

Lemma lower_unit_spec c :
  lower_unit c
  = if decide ((65 <= c <= 90)%N \/ ((192 <= c <= 222)%N /\ c <> 215%N))
    then (c + 32)%N else c.
Proof.
  unfold lower_unit.
  destruct (N.leb_spec 65 c), (N.leb_spec c 90), (N.leb_spec 192 c),
    (N.leb_spec c 222), (N.eqb_spec c 215); cbn; case_decide; try done; lia.
Qed.

Lemma lower_unit_idempotent c : lower_unit (lower_unit c) = lower_unit c.
Proof. rewrite !lower_unit_spec. repeat case_decide; try done; lia. Qed.

Lemma lower_unit_latin1 c : (c <? 256)%N = true -> (lower_unit c <? 256)%N = true.
Proof.
  intros H%N.ltb_lt. apply N.ltb_lt. rewrite lower_unit_spec. case_decide; lia.
Qed.

Lemma lower_units_latin1 s : latin1 s = true -> latin1 (lower_units s) = true.
Proof.
  induction s as [|c s IH]; [done|]. simpl.
  intros [Hc Hs]%andb_true_iff. by rewrite lower_unit_latin1, IH.
Qed.

Lemma lower_units_idempotent s : lower_units (lower_units s) = lower_units s.
Proof.
  induction s as [|c s IH]; [done|]. simpl. by rewrite lower_unit_idempotent, IH.
Qed.

Lemma toLowerCase_idempotent lower s :
  latin1 s = true ->
  toLowerCase lower (toLowerCase lower s) = toLowerCase lower s.
Proof.
  intros H. unfold toLowerCase.
  by rewrite H, lower_units_latin1, lower_units_idempotent.
Qed.

(** X4. The altitude of a name does not depend on its letter case: two names
    with the same lower case get the same altitude at every depth, and a name
    gets the altitude of its own lower case; this second part holds for
    every name of units below 256, and beyond them whenever the engine's
    case mapping leaves the lower case of the name as it is. *)
Theorem getAltitude_ignores_case lower name1 name2 depth :
  toLowerCase lower name1 = toLowerCase lower name2 ->
  getAltitude lower name1 depth = getAltitude lower name2 depth
  /\ (latin1 name1 = true
      \/ toLowerCase lower (toLowerCase lower name1) = toLowerCase lower name1 ->
      getAltitude lower (toLowerCase lower name1) depth
      = getAltitude lower name1 depth).
Proof.
  intros H. unfold getAltitude. split; [by rewrite H|].
  intros [Hl|Hi]; [by rewrite toLowerCase_idempotent|by rewrite Hi].
Qed.

Lemma getAltitude_ignores_case_witness :
  latin1 "SRC" = true
  /\ forall lower,
       toLowerCase lower "SRC" = toLowerCase lower "Src"
       /\ getAltitude lower "SRC" 0 = getAltitude lower "Src" 0
       /\ getAltitude lower (toLowerCase lower "SRC") 0 = Num 12.
Proof.
  split; [reflexivity|]. intros lower.
  assert (toLowerCase lower "SRC" = toLowerCase lower "Src") as Heq by reflexivity.
  destruct (getAltitude_ignores_case lower "SRC" "Src" 0 Heq) as [H1 H2].
  split; [exact Heq|]. split; [exact H1|].
  rewrite H2 by (by left). by vm_compute.
Defined.

(** ** The jitter hash *)

Lemma name_hash_foldl (l : list char16) acc :
  foldl (fun a ch => a + charCodeAt0 ch) acc l
  = acc + foldl (fun a ch => a + charCodeAt0 ch) 0 l.
Proof.
  revert acc. induction l as [|c l IH]; intros acc; simpl; [lia|].
  rewrite (IH (acc + charCodeAt0 c)), (IH (0 + charCodeAt0 c)). lia.
Qed.

Lemma name_hash_Permutation (l1 l2 : list char16) :
  l1 ≡ₚ l2 ->
  foldl (fun a ch => a + charCodeAt0 ch) 0 l1
  = foldl (fun a ch => a + charCodeAt0 ch) 0 l2.
Proof.
  induction 1 as [|c l1 l2 _ IH|c d l|l1 l2 l3 _ IH1 _ IH2]; simpl.
  - done.
  - by rewrite (name_hash_foldl l1), (name_hash_foldl l2), IH.
  - rewrite name_hash_foldl. symmetry. rewrite name_hash_foldl. lia.
  - congruence.
Qed.

Lemma name_hash_nonneg name : 0 <= name_hash name.
Proof.
  unfold name_hash. generalize (split_units name) as l.
  induction l as [|c l IH]; simpl; [done|].
  rewrite name_hash_foldl. unfold charCodeAt0 at 1. lia.
Qed.

(** X5. The angle jitter cannot tell anagrams apart: two names made of the
    same code units in any order have the same character-code sum and,
    placed at the same index of the same number of directories, the same
    angle. *)
Theorem nameToAngle_anagram name1 name2 i n :
  split_units name1 ≡ₚ split_units name2 ->
  name_hash name1 = name_hash name2
  /\ nameToAngle name1 i n = nameToAngle name2 i n.
Proof.
  intros H. assert (name_hash name1 = name_hash name2) as Hh
    by (by apply name_hash_Permutation).
  split; [done|]. unfold nameToAngle. by rewrite Hh.
Qed.

Lemma nameToAngle_anagram_witness :
  split_units "中文-docs" ≡ₚ split_units "docs-文中"
  /\ name_hash "中文-docs" = 46474
  /\ nameToAngle "中文-docs" 0 4 = nameToAngle "docs-文中" 0 4.
Proof.
  assert (split_units "中文-docs" ≡ₚ split_units "docs-文中") as H.
  { apply (bool_decide_unpack _). by vm_compute. }
  split; [exact H|]. split; [reflexivity|].
  by destruct (nameToAngle_anagram "中文-docs" "docs-文中" 0 4 H).
Defined.

(** ** File nodes: order and levels *)

Lemma placedSize_sizeKey file : 50000 < placedSize file <-> 50000 < sizeKey file.
Proof.
  unfold placedSize, sizeKey, num_or. destruct (TreeEntry.size file) as [s|]; [|lia].
  case_decide; lia.
Qed.

(** X6. Suns come first: in the output no Star node precedes a Sun node.
    The files are arranged by descending size, so every file placed before a
    file of more than 50000 bytes is itself that large. *)
Theorem suns_precede_stars Math_sin Math_cos lower t m i j nj :
  t <> [] -> (i < j)%nat ->
  fileNodes (primaryLayout Math_sin Math_cos lower t m) !! j = Some nj ->
  Island.type nj = sun ->
  buildCityLayout Math_sin Math_cos lower (Some t) (Some m)
  = Return (primaryLayout Math_sin Math_cos lower t m)
  /\ exists ni,
       fileNodes (primaryLayout Math_sin Math_cos lower t m) !! i = Some ni
       /\ Island.type ni = sun.
Proof.
  intros Ht Hij Hj Hsun. split; [by apply buildCityLayout_primary|].
  rewrite primary_file_nodes in Hj. unfold placedFiles in Hj.
  rewrite list_lookup_imap in Hj.
  destruct (topFiles t !! j) as [fj|] eqn:Hfj; [|done].
  change (Some (placeFile Math_sin Math_cos (length (topFiles t)) j fj) = Some nj) in Hj.
  assert (nj = placeFile Math_sin Math_cos (length (topFiles t)) j fj) as -> by congruence.
  destruct (topFiles t !! i) as [fi|] eqn:Hfi.
  2: { apply lookup_ge_None in Hfi. apply lookup_lt_Some in Hfj. lia. }
  exists (placeFile Math_sin Math_cos (length (topFiles t)) i fi).
  split.
  { rewrite primary_file_nodes. unfold placedFiles.
    by rewrite list_lookup_imap, Hfi. }
  pose proof (StronglySorted_lookup_lt _ _ i j fi fj (topFiles_sorted t) Hfi Hfj Hij)
    as Hord. unfold sizeDescending in Hord.
  unfold placeFile in Hsun |- *; cbn [Island.type] in Hsun |- *.
  fold (placedSize fj) in Hsun. fold (placedSize fi).
  destruct (decide (50000 < placedSize fj)) as [Hbig|]; [|done].
  apply placedSize_sizeKey in Hbig.
  rewrite decide_True; [done|]. apply placedSize_sizeKey. lia.
Qed.

Lemma suns_precede_stars_witness :
  nestedListing <> [] /\ (0 < 1)%nat
  /\ forall Math_sin Math_cos lower,
       buildCityLayout Math_sin Math_cos lower (Some nestedListing) (Some demoMeta)
       = Return (primaryLayout Math_sin Math_cos lower nestedListing demoMeta)
       /\ exists ni,
            fileNodes (primaryLayout Math_sin Math_cos lower nestedListing demoMeta) !! 0%nat
            = Some ni
            /\ Island.type ni = sun.
Proof.
  split; [done|]. split; [lia|]. intros Math_sin Math_cos lower.
  refine (suns_precede_stars Math_sin Math_cos lower nestedListing demoMeta 0 1
            (placeFile Math_sin Math_cos 3 1
               (entry "Packages/core/a.js" "blob" (Some 60000) None))
            _ _ _ _).
  - done.
  - lia.
  - rewrite primary_file_nodes. reflexivity.
  - reflexivity.
Defined.

(** X7. The two levels of file nodes.  A Sun node has altitude 6, floats at
    height 3 and records a size above 50000; a Star node has altitude 2,
    floats at height -1 and records a size of at most 50000.  The recorded
    size is never 0, and no Star is drawn larger than a Sun: a Star's scale
    is at most 1.2 and a Sun's at least 1.2. *)
Theorem file_node_levels Math_sin Math_cos lower t m i node :
  t <> [] ->
  fileNodes (primaryLayout Math_sin Math_cos lower t m) !! i = Some node ->
  buildCityLayout Math_sin Math_cos lower (Some t) (Some m)
  = Return (primaryLayout Math_sin Math_cos lower t m)
  /\ exists s, Island.fileSize node = Some s /\ s <> 0
     /\ (Island.type node = sun ->
           50000 < s /\ Island.altitude node = Num 6
           /\ height (Island.position node) = 3%float
           /\ PrimFloat.leb 1.2 (Island.scale node) = true)
     /\ (Island.type node = star ->
           s <= 50000 /\ Island.altitude node = Num 2
           /\ height (Island.position node) = (-1)%float
           /\ PrimFloat.leb (Island.scale node) 1.2 = true)
     /\ (Island.type node = sun \/ Island.type node = star).
Proof.
  intros Ht Hi. split; [by apply buildCityLayout_primary|].
  rewrite primary_file_nodes in Hi. unfold placedFiles in Hi.
  rewrite list_lookup_imap in Hi.
  destruct (topFiles t !! i) as [f|] eqn:Hf; [|done].
  change (Some (placeFile Math_sin Math_cos (length (topFiles t)) i f) = Some node) in Hi.
  assert (node = placeFile Math_sin Math_cos (length (topFiles t)) i f) as -> by congruence.
  exists (placedSize f).
  unfold placeFile; cbn [Island.fileSize Island.type Island.altitude
    Island.position Island.scale height fst snd].
  fold (placedSize f).
  split; [done|]. split.
  { unfold placedSize, num_or. destruct (TreeEntry.size f) as [s|]; [|done].
    by case_decide. }
  destruct (decide (50000 < placedSize f)) as [Hbig|Hsmall].
  - split; [|split; [done|by left]]. intros _.
    split; [done|]. split; [done|]. split; [by vm_compute|].
    pose proof (sizeToScale_monotone 50001 (placedSize f) ltac:(lia)) as Hm.
    exact Hm.
  - split; [done|]. split; [|by right]. intros _.
    split; [lia|]. split; [done|]. split; [by vm_compute|].
    pose proof (sizeToScale_monotone (placedSize f) 50000 ltac:(lia)) as Hm.
    exact Hm.
Qed.

Lemma file_node_levels_witness :
  nestedListing <> []
  /\ forall Math_sin Math_cos lower, exists node,
       fileNodes (primaryLayout Math_sin Math_cos lower nestedListing demoMeta) !! 2%nat
       = Some node
       /\ Island.type node = star
       /\ Island.altitude node = Num 2
       /\ Island.fileSize node = Some 120.
Proof.
  split; [done|]. intros Math_sin Math_cos lower.
  assert (fileNodes (primaryLayout Math_sin Math_cos lower nestedListing demoMeta) !! 2%nat
          = Some (placeFile Math_sin Math_cos 3 2
                    (entry ".gitmodules" "blob" (Some 120) None))) as Hnode.
  { rewrite primary_file_nodes. reflexivity. }
  eexists. split; [exact Hnode|].
  destruct (file_node_levels Math_sin Math_cos lower nestedListing demoMeta 2 _
              ltac:(done) Hnode) as (_ & s & Hs & _ & _ & Hstar & _).
  assert (Island.type (placeFile Math_sin Math_cos 3 2
            (entry ".gitmodules" "blob" (Some 120) None)) = star) as Hty
    by reflexivity.
  destruct (Hstar Hty) as (_ & Halt & _).
  split; [exact Hty|]. split; [exact Halt|]. reflexivity.
Defined.

(** ** Numeric range of directory nodes *)

Lemma small_Z_cases (a : Z) :
  0 <= a <= 12 -> exists k : nat, (k <= 12)%nat /\ a = Z.of_nat k.
Proof. intros H. exists (Z.to_nat a). lia. Qed.

Lemma directory_floats_in_range a :
  0 <= a <= 12 ->
  PrimFloat.leb 0.8 (0.8 + toNumber (Num a) / 15) = true
  /\ PrimFloat.leb (0.8 + toNumber (Num a) / 15) 1.6 = true
  /\ PrimFloat.leb (-5) (toNumber (Num a) - 5) = true
  /\ PrimFloat.leb (toNumber (Num a) - 5) 7 = true.
Proof.
  intros (k & Hk & ->)%small_Z_cases.
  do 13 (destruct k as [|k]; [by vm_compute|]). lia.
Qed.

(** X8. Numeric range of a directory node.  When [getAltitude] gives the
    directory a number, it lies between 0 and 12, the node's scale between
    0.8 and 1.6 and its height between -5 and 7.  Otherwise the altitude is
    an object inherited from [Object.prototype], and scale and height are
    NaN. *)
Theorem directory_node_range Math_sin Math_cos lower t m i node :
  t <> [] ->
  nodesOfType directory (primaryLayout Math_sin Math_cos lower t m) !! i = Some node ->
  buildCityLayout Math_sin Math_cos lower (Some t) (Some m)
  = Return (primaryLayout Math_sin Math_cos lower t m)
  /\ match Island.altitude node with
     | Num a =>
         0 <= a <= 12
         /\ PrimFloat.leb 0.8 (Island.scale node) = true
         /\ PrimFloat.leb (Island.scale node) 1.6 = true
         /\ PrimFloat.leb (-5) (height (Island.position node)) = true
         /\ PrimFloat.leb (height (Island.position node)) 7 = true
     | Inherited key =>
         key ∈ OBJECT_PROTOTYPE_KEYS
         /\ Island.scale node = PrimFloat.nan
         /\ height (Island.position node) = PrimFloat.nan
     end.
Proof.
  intros Ht Hi. split; [by apply buildCityLayout_primary|].
  rewrite primary_directory_nodes in Hi. unfold placedDirs in Hi.
  rewrite list_lookup_fmap, list_lookup_imap in Hi.
  destruct (topDirs t !! i) as [dir|] eqn:Hdir; [|done].
  change (Some (fst (placeDirectory Math_sin Math_cos lower (length (topDirs t)) i dir))
          = Some node) in Hi.
  assert (node = fst (placeDirectory Math_sin Math_cos lower (length (topDirs t)) i dir))
    as -> by congruence.
  assert (includes (TreeEntry.path dir) "/"%u16 = false) as Hslash.
  { pose proof (topDirs_Forall t) as Hall. rewrite Forall_forall in Hall.
    by destruct (Hall dir (list_elem_of_lookup_2 _ _ _ Hdir)). }
  unfold placeDirectory; cbn [fst snd Island.altitude Island.scale
    Island.position height].
  rewrite (match_count_top_level _ _ Hslash).
  destruct (getAltitude lower (basename (TreeEntry.path dir)) 0) as [a|key] eqn:Halt.
  - pose proof (getAltitude_numeric_range _ _ _ Halt) as Ha.
    split; [done|]. by apply directory_floats_in_range.
  - split; [|by split].
    unfold getAltitude, ALTITUDE_MAP_get in Halt.
    destruct (ALTITUDE_MAP !! _); [done|]. case_decide; [|done]. congruence.
Qed.

Lemma directory_node_range_witness :
  scenario <> []
  /\ forall Math_sin Math_cos lower, exists node,
       nodesOfType directory (primaryLayout Math_sin Math_cos lower scenario demoMeta) !! 0%nat
       = Some node
       /\ Island.altitude node = Num 12
       /\ PrimFloat.leb (Island.scale node) 1.6 = true.
Proof.
  split; [done|]. intros Math_sin Math_cos lower.
  assert (nodesOfType directory (primaryLayout Math_sin Math_cos lower scenario demoMeta)
            !! 0%nat
          = Some (fst (placeDirectory Math_sin Math_cos lower 2 0
                         (entry "src" "tree" None None)))) as Hnode.
  { rewrite primary_directory_nodes. reflexivity. }
  eexists. split; [exact Hnode|].
  destruct (directory_node_range Math_sin Math_cos lower scenario demoMeta 0 _
              ltac:(done) Hnode) as [_ Hrange].
  assert (Island.altitude (fst (placeDirectory Math_sin Math_cos lower 2 0
            (entry "src" "tree" None None))) = Num 12) as Halt by (by vm_compute).
  rewrite Halt in Hrange. split; [exact Halt|]. tauto.
Defined.


(** * Consumers of the layout *)

(** ** What every returned layout looks like to a consumer *)

Lemma placeDirectory_plain Math_sin Math_cos lower n i dir :
  includes (TreeEntry.path dir) "/"%u16 = false ->
  plainNode (fst (placeDirectory Math_sin Math_cos lower n i dir)).
Proof.
  intros Hslash. unfold plainNode, placeDirectory.
  cbn [fst Island.isCore Island.type Island.altitude].
  split; [done|]. split; [done|].
  rewrite (match_count_top_level _ _ Hslash).
  destruct (getAltitude lower _ 0) as [a|key] eqn:Ha; [|done].
  by eapply getAltitude_numeric_range.
Qed.

Lemma placeFile_plain Math_sin Math_cos n i f :
  plainNode (placeFile Math_sin Math_cos n i f).
Proof.
  unfold plainNode, placeFile. cbn [Island.isCore Island.type Island.altitude].
  split; [done|]. split; [by case_decide|]. case_decide; lia.
Qed.

Lemma primary_tail_plain Math_sin Math_cos lower t m :
  Forall plainNode (tail (islands (primaryLayout Math_sin Math_cos lower t m))).
Proof.
  unfold primaryLayout; cbn [islands tail]. apply Forall_app. split.
  - unfold placedDirs. rewrite fmap_imap.
    apply Forall_forall. intros n (i & dir & -> & Hdir)%elem_of_lookup_imap.
    apply placeDirectory_plain.
    pose proof (topDirs_Forall t) as Hall. rewrite Forall_forall in Hall.
    by destruct (Hall dir (list_elem_of_lookup_2 _ _ _ Hdir)).
  - apply Forall_imap. intros i f. apply placeFile_plain.
Qed.

Lemma demo_tail_plain m :
  Forall plainNode (tail (islands (buildDemoCity m))).
Proof.
  unfold buildDemoCity; cbn [islands tail].
  repeat constructor; try done; cbn; lia.
Qed.

(** Every layout a call returns: the core station first, plain nodes
    behind it. *)
Lemma returned_layout_shape Math_sin Math_cos lower t m L :
  buildCityLayout Math_sin Math_cos lower t m = Return L ->
  exists c, islands L = c :: tail (islands L)
    /\ Island.isCore c = Some true /\ Island.type c = core
    /\ Island.altitude c = Num 0
    /\ Forall plainNode (tail (islands L)).
Proof.
  destruct t as [[|x l]|].
  - intros [= <-]. eexists. split; [reflexivity|].
    repeat split; try done. apply demo_tail_plain.
  - destruct m as [a|]; [|done]. intros [= <-]. eexists.
    split; [reflexivity|]. repeat split; try done. apply primary_tail_plain.
  - intros [= <-]. eexists. split; [reflexivity|].
    repeat split; try done. apply demo_tail_plain.
Qed.

Lemma filter_notCore_plain (l : list Island.t) :
  Forall plainNode l -> filter (fun i => notCore i) l = l.
Proof.
  intros H. apply filter_Forall_id. eapply Forall_impl; [exact H|].
  intros n (Hc & _). unfold notCore. by rewrite Hc.
Qed.

(** X9. In every layout a call returns, the core station is the first node
    and the only one flagged [isCore]: the scene's
    [islands.find(i => i.isCore)] finds it, and the overlays'
    [islands.filter(i => !i.isCore)] yields exactly the remaining nodes, in
    order. *)
Theorem core_station_is_head Math_sin Math_cos lower t m :
  match buildCityLayout Math_sin Math_cos lower t m with
  | Return L =>
      exists c,
        head (islands L) = Some c
        /\ Island.type c = core
        /\ coreIsland (islands L) = Some c
        /\ filter (fun i => notCore i) (islands L) = tail (islands L)
  | Throw _ => m = None /\ ~ noData t
  end.
Proof.
  destruct (buildCityLayout Math_sin Math_cos lower t m) as [L|e] eqn:HL.
  - destruct (returned_layout_shape _ _ _ _ _ _ HL) as (c & Hshape & Hc & Hty & _ & Hplain).
    exists c. rewrite Hshape. cbn [head tail]. split; [done|]. split; [done|].
    split.
    + unfold coreIsland. rewrite filter_cons_True by (by rewrite Hc).
      done.
    + assert (notCore c = false) as Hn by (unfold notCore; by rewrite Hc).
      rewrite filter_cons_False by (rewrite Hn; intros []).
      by apply filter_notCore_plain.
  - destruct t as [[|x l]|]; try done. destruct m; [done|].
    split; [done|]. intros [H|H]; discriminate H.
Qed.

(** ** Merge conflicts of the battle overlay *)

Lemma slice_0 {A} n (l : list A) : slice 0 n l = take n l.
Proof. unfold slice. by rewrite Nat.sub_0_r, drop_0. Qed.

Lemma js_gt_val_or v k :
  0 <= k -> js_gt (val_or v 0) k = true -> exists a, v = Num a /\ k < a.
Proof.
  intros Hk. destruct v as [n|key]; [|done]. unfold val_or.
  case_decide as Hn; cbn [js_gt]; intros H%bool_decide_eq_true; [lia|].
  by exists n.
Qed.

(** X10. The battle overlay on a primary layout: [getMockConflicts] marks at
    most two nodes; each marked id is the id of a node behind the core
    station whose altitude is a number above 3, so the core station and the
    Star nodes are never marked; and a layout of fewer than three nodes gets
    no conflict at all. *)
Theorem mock_conflicts_on_layout Math_sin Math_cos lower t m :
  t <> [] ->
  exists L,
    buildCityLayout Math_sin Math_cos lower (Some t) (Some m) = Return L
    /\ (length (getMockConflicts (Some (islands L))) <= 2)%nat
    /\ (forall c, c ∈ getMockConflicts (Some (islands L)) ->
          exists node a,
            node ∈ tail (islands L)
            /\ Island.id node = islandId c
            /\ Island.altitude node = Num a /\ 3 < a
            /\ Island.type node <> core /\ Island.type node <> star)
    /\ ((length (islands L) < 3)%nat -> getMockConflicts (Some (islands L)) = []).
Proof.
  intros Ht. exists (primaryLayout Math_sin Math_cos lower t m).
  split; [by apply buildCityLayout_primary|].
  unfold getMockConflicts.
  destruct (decide (length (islands (primaryLayout Math_sin Math_cos lower t m)) < 3)%nat)
    as [Hlt|Hge].
  { split; [simpl; lia|]. split; [|done]. intros c Hc. by apply elem_of_nil in Hc. }
  split; [rewrite length_fmap, slice_0, length_take; lia|].
  split; [|lia].
  intros c (node & -> & Hnode)%list_elem_of_fmap.
  rewrite slice_0 in Hnode.
  apply elem_of_take in Hnode as (k & Hk & _).
  apply list_elem_of_lookup_2, list_elem_of_filter in Hk as [[Hnc Hgt] Hin].
  apply Is_true_true in Hgt.
  destruct (js_gt_val_or _ 3 ltac:(lia) Hgt) as (a & Ha & H3).
  assert (node ∈ tail (islands (primaryLayout Math_sin Math_cos lower t m))) as Htail.
  { unfold primaryLayout in Hin |- *; cbn [islands tail] in Hin |- *.
    apply elem_of_cons in Hin as [->|Hin]; [|done].
    by destruct Hnc. }
  exists node, a. split; [done|]. split; [done|]. split; [done|]. split; [done|].
  pose proof (primary_tail_plain Math_sin Math_cos lower t m) as Hplain.
  rewrite Forall_forall in Hplain. destruct (Hplain _ Htail) as (_ & Hty & _).
  split; [done|]. intros Hstar.
  unfold primaryLayout in Htail; cbn [islands tail] in Htail.
  apply elem_of_app in Htail as [Hd|Hf].
  - pose proof (placedDirs_type Math_sin Math_cos lower t) as Hdt.
    rewrite Forall_forall in Hdt. rewrite (Hdt _ Hd) in Hstar. discriminate Hstar.
  - apply elem_of_lookup_imap in Hf as (i & f & -> & _).
    unfold placeFile in Ha, Hstar; cbn [Island.altitude Island.type] in Ha, Hstar.
    destruct (decide (50000 < num_or (TreeEntry.size f) 1000)); [done|].
    injection Ha as <-. lia.
Qed.

Lemma mock_conflicts_on_layout_witness :
  scenario <> []
  /\ forall Math_sin Math_cos lower, exists L,
       buildCityLayout Math_sin Math_cos lower (Some scenario) (Some demoMeta) = Return L
       /\ islandId <$> getMockConflicts (Some (islands L)) = ["dir-0"; "file-0"].
Proof.
  split; [done|]. intros Math_sin Math_cos lower.
  destruct (mock_conflicts_on_layout Math_sin Math_cos lower scenario demoMeta)
    as (L & HL & _); [done|].
  exists L. split; [done|]. injection HL as <-. by vm_compute.
Defined.

(** ** The guided tour *)

Lemma filter_tour_directories Math_sin Math_cos lower t m :
  filter (fun i => notCore i /\ Island.type i = directory)
    (islands (primaryLayout Math_sin Math_cos lower t m))
  = fst <$> placedDirs Math_sin Math_cos lower t.
Proof.
  unfold primaryLayout; cbn [islands].
  rewrite filter_cons_False by (intros [_ H]; discriminate H).
  rewrite filter_app, filter_Forall_id, filter_Forall_nil; [by rewrite app_nil_r|..].
  - eapply Forall_impl; [apply placedFiles_type|]. cbn.
    intros n [-> | ->] [_ H]; discriminate H.
  - unfold placedDirs. rewrite fmap_imap. by apply Forall_imap.
Qed.

(** X11. The guided tour of a primary layout stops at the Directory nodes
    only, in output order, and at no more than six of them: its stops are
    the nodes of the first six top-level directories of the listing, in the
    order the listing gives them. *)
Theorem tour_stops_are_first_directories Math_sin Math_cos lower t m :
  t <> [] ->
  exists L,
    buildCityLayout Math_sin Math_cos lower (Some t) (Some m) = Return L
    /\ tourStops (Some (islands L)) = take 6 (nodesOfType directory L)
    /\ Island.originalPath <$> tourStops (Some (islands L))
       = (Some ∘ TreeEntry.path)
         <$> take 6 (filter (fun e => TreeEntry.type e = "tree"
                                      /\ includes (TreeEntry.path e) "/"%u16 = false) t).
Proof.
  intros Ht. exists (primaryLayout Math_sin Math_cos lower t m).
  split; [by apply buildCityLayout_primary|].
  unfold tourStops. rewrite slice_0, filter_tour_directories, primary_directory_nodes.
  split; [done|].
  rewrite fmap_take. unfold placedDirs. rewrite placed_directory_paths.
  rewrite topDirs_spec. unfold spec_topLevelDirectories.
  by rewrite !fmap_take, take_take.
Qed.

Lemma tour_stops_are_first_directories_witness :
  scenario <> []
  /\ forall Math_sin Math_cos lower, exists L,
       buildCityLayout Math_sin Math_cos lower (Some scenario) (Some demoMeta) = Return L
       /\ Island.originalPath <$> tourStops (Some (islands L))
          = [Some "src"; Some "docs"].
Proof.
  split; [done|]. intros Math_sin Math_cos lower.
  destruct (tour_stops_are_first_directories Math_sin Math_cos lower scenario demoMeta)
    as (L & HL & _ & Hpaths); [done|].
  exists L. split; [done|]. rewrite Hpaths. reflexivity.
Defined.

(** ** Traffic trails *)

Lemma sum_list_bounded (ls : list nat) (b : nat) :
  Forall (fun n => n <= b)%nat ls -> (sum_list ls <= b * length ls)%nat.
Proof. induction 1 as [|n ls Hn _ IH]; simpl; lia. Qed.

Lemma sum_list_constant (ls : list nat) (b : nat) :
  Forall (fun n => n = b) ls -> sum_list ls = (b * length ls)%nat.
Proof. induction 1 as [|n ls Hn _ IH]; simpl; lia. Qed.

Lemma slice_length {A} a b (l : list A) :
  length (slice a b l) = Nat.min (b - a) (length l - a).
Proof. unfold slice. by rewrite length_take, length_drop. Qed.

(** X12. The static traffic trails: a trail runs from one of the first ten
    islands to the island one or two places behind it in the list, never to
    the island itself; there are at most 20 trails, exactly 20 from twelve
    islands on, and none for fewer than two islands, for a missing list or
    when the overlay is off. *)
Theorem trails_link_neighbours (islands : list Island.t) :
  (length (trails (Some islands) true) <= 20)%nat
  /\ (forall tr, tr ∈ trails (Some islands) true ->
        exists i j a b,
          (i < 10)%nat /\ (j = i + 1 \/ j = i + 2)%nat
          /\ islands !! i = Some a /\ islands !! j = Some b
          /\ tr = trailBetween a b)
  /\ ((12 <= length islands)%nat -> length (trails (Some islands) true) = 20%nat)
  /\ ((length islands <= 1)%nat -> trails (Some islands) true = [])
  /\ trails (Some islands) false = []
  /\ trails None true = [].
Proof.
  unfold trails; cbn [negb].
  set (row := fun (i : nat) (a : Island.t) =>
                trailBetween a <$> slice (i + 1) (i + 3) islands).
  assert (length (slice 0 10 islands) <= 10)%nat as Hrows
    by (rewrite slice_length; lia).
  split; [|split; [|split; [|split]]]; try done.
  - rewrite length_join.
    etrans; [apply (sum_list_bounded _ 2)|rewrite length_fmap, length_imap; lia].
    apply Forall_fmap, Forall_imap. intros i a. unfold row; cbn.
    rewrite length_fmap, slice_length. lia.
  - intros tr (r & Htr & Hr)%list_elem_of_join.
    apply elem_of_lookup_imap in Hr as (i & a & -> & Ha).
    rewrite slice_0 in Ha. apply lookup_take_Some in Ha as [Ha Hi].
    apply list_elem_of_fmap in Htr as (b & -> & Hb).
    unfold slice in Hb. apply elem_of_take in Hb as (d & Hb & Hd).
    rewrite lookup_drop in Hb.
    exists i, (i + 1 + d)%nat, a, b. repeat split; try done. lia.
  - intros Hn. rewrite length_join.
    rewrite (sum_list_constant _ 2).
    + rewrite length_fmap, length_imap, slice_length. lia.
    + apply Forall_fmap, Forall_forall.
      intros r (i & a & -> & Ha)%elem_of_lookup_imap.
      rewrite slice_0 in Ha. apply lookup_take_Some in Ha as [_ Hi].
      unfold row; cbn. rewrite length_fmap, slice_length. lia.
  - intros Hn. destruct islands as [|x [|y l]]; [done|done|simpl in Hn; lia].
Qed.

(** ** Build weather *)

(** X13. [getBuildState] never yields [undefined]: the character-code sum is
    not negative, so its remainder by 5 is an index of the five-entry table.
    The state is 'fail' exactly when the sum leaves remainder 1 and 'pending'
    exactly when it leaves 2; a missing or empty name gives 'pass'; and names
    that are anagrams of each other share their state. *)
Theorem getBuildState_total (islandName : option jsstring) :
  exists s,
    getBuildState islandName = Some s
    /\ (s = fail <-> name_hash (str_or islandName "") `mod` 5 = 1)
    /\ (s = pending <-> name_hash (str_or islandName "") `mod` 5 = 2)
    /\ (islandName = None \/ islandName = Some "" -> s = pass)
    /\ (forall other,
          split_units (str_or islandName "") ≡ₚ split_units other ->
          getBuildState (Some other) = Some s).
Proof.
  assert (forall o, exists r,
            0 <= r < 5 /\ r = name_hash (str_or o "") `mod` 5
            /\ getBuildState o = BUILD_STATES !! Z.to_nat r) as Hidx.
  { intros o. unfold getBuildState, at_index.
    pose proof (name_hash_nonneg (str_or o "")) as Hh.
    change (Z.of_nat (length BUILD_STATES)) with 5.
    rewrite Z.rem_mod_nonneg by lia.
    pose proof (Z.mod_pos_bound (name_hash (str_or o "")) 5 ltac:(lia)) as Hr.
    eexists. split; [exact Hr|]. split; [done|]. by rewrite decide_True by lia. }
  destruct (Hidx islandName) as (r & Hr & Hreq & Hget).
  assert (forall other,
            split_units (str_or islandName "") ≡ₚ split_units other ->
            getBuildState (Some other) = BUILD_STATES !! Z.to_nat r) as Hother.
  { intros other Hperm. destruct (Hidx (Some other)) as (r' & _ & Hr' & ->).
    assert (str_or (Some other) "" = other) as Hs
      by (unfold str_or; case_decide; congruence).
    rewrite Hs in Hr'. unfold name_hash in Hr', Hreq.
    rewrite <- (name_hash_Permutation _ _ Hperm) in Hr'. congruence. }
  assert (islandName = None \/ islandName = Some "" -> r = 0) as Hempty.
  { intros [-> | ->]; by rewrite Hreq. }
  rewrite Hget. rewrite <- Hreq.
  assert (r = 0 \/ r = 1 \/ r = 2 \/ r = 3 \/ r = 4) as Hcases by lia.
  destruct Hcases as [->|[->|[->|[->| ->]]]]; cbn;
    eexists; (split; [reflexivity|]);
    (repeat split; try done; try lia;
     try (intros Hx; apply Hempty in Hx; lia);
     try (intros other Hp; by rewrite (Hother other Hp))).
Qed.

(** ** Timeline visibility *)

Lemma plainNode_birthPct n :
  plainNode n ->
  match Island.altitude n with
  | Num _ => exists b, birthPct n = Some b /\ 16 <= b <= 93
  | Inherited _ => birthPct n = None
  end.
Proof.
  intros (Hc & _ & Halt). unfold birthPct. rewrite Hc; cbn [default].
  destruct (Island.altitude n) as [a|key]; [|done].
  unfold val_or. case_decide; eexists; (split; [reflexivity|]); lia.
Qed.

(** X14. Timeline visibility of a returned layout.  The core station is
    visible at every timeline position from 0 on.  A node behind it whose
    altitude is a number appears somewhere between 16 and 93 percent, so it
    is visible from 93 percent on, in particular at the initial 100.  A node
    whose altitude is an inherited object is compared against NaN and is
    visible at no position. *)
Theorem timeline_visibility Math_sin Math_cos lower t m :
  match buildCityLayout Math_sin Math_cos lower t m with
  | Return L =>
      (exists c, head (islands L) = Some c
         /\ birthPct c = Some 0
         /\ forall p, 0 <= p -> isVisible p c = true)
      /\ Forall (fun n =>
                   match Island.altitude n with
                   | Num _ =>
                       (exists b, birthPct n = Some b /\ 16 <= b <= 93)
                       /\ forall p, 93 <= p -> isVisible p n = true
                   | Inherited _ => forall p, isVisible p n = false
                   end)
           (tail (islands L))
  | Throw _ => m = None /\ ~ noData t
  end.
Proof.
  destruct (buildCityLayout Math_sin Math_cos lower t m) as [L|e] eqn:HL.
  - destruct (returned_layout_shape _ _ _ _ _ _ HL) as (c & Hshape & Hc & _ & _ & Hplain).
    split.
    + exists c. rewrite Hshape. split; [done|].
      assert (birthPct c = Some 0) as Hb by (unfold birthPct; by rewrite Hc).
      split; [done|]. intros p Hp. unfold isVisible. rewrite Hb.
      by apply bool_decide_eq_true.
    + eapply Forall_impl; [exact Hplain|]. intros n Hn.
      pose proof (plainNode_birthPct n Hn) as Hb.
      destruct (Island.altitude n) as [a|key].
      * destruct Hb as (b & Hb & Hrange). split; [by exists b|].
        intros p Hp. unfold isVisible. rewrite Hb.
        apply bool_decide_eq_true. lia.
      * intros p. unfold isVisible. by rewrite Hb.
  - destruct t as [[|x l]|]; try done. destruct m; [done|].
    split; [done|]. intros [H|H]; discriminate H.
Qed.

(** ** Decay *)

Lemma small_hash_cases (h : Z) :
  0 <= h -> exists k : nat, (k < 100)%nat /\ Z.rem h 100 = Z.of_nat k.
Proof.
  intros H. exists (Z.to_nat (h `mod` 100)).
  rewrite Z.rem_mod_nonneg by lia.
  pose proof (Z.mod_pos_bound h 100 ltac:(lia)). lia.
Qed.

Lemma decay_in_unit_interval (a : nat) (k : nat) :
  (a <= 12)%nat -> (k < 100)%nat ->
  let d := Math_min 1 ((1 - Math_min 1 (Z2F (Z.of_nat a) / 12)) * 0.7
                       + Z2F (Z.of_nat k) / 100 * 0.3)%float in
  PrimFloat.leb 0 d = true /\ PrimFloat.leb d 1 = true.
Proof.
  intros Ha Hk.
  do 13 (destruct a as [|a];
         [do 100 (destruct k as [|k]; [by vm_compute|]); exfalso; lia|]).
  exfalso; lia.
Qed.

Lemma decay_of_object (k : nat) :
  (k < 100)%nat ->
  Math_min 1 ((1 - Math_min 1 (PrimFloat.nan / 12)) * 0.7
              + Z2F (Z.of_nat k) / 100 * 0.3)%float = PrimFloat.nan.
Proof.
  intros Hk. do 100 (destruct k as [|k]; [by vm_compute|]). exfalso; lia.
Qed.

Lemma toNumber_val_or_zero a : toNumber (val_or (Num a) 0) = Z2F a.
Proof. unfold val_or. case_decide; [by subst a|done]. Qed.

Lemma getDecayLevel_range n :
  match Island.altitude n with
  | Num a => 0 <= a <= 12
  | Inherited _ => True
  end ->
  match Island.altitude n with
  | Num _ =>
      PrimFloat.leb 0 (getDecayLevel n) = true
      /\ PrimFloat.leb (getDecayLevel n) 1 = true
  | Inherited _ => getDecayLevel n = PrimFloat.nan
  end.
Proof.
  intros Halt. unfold getDecayLevel.
  destruct (small_hash_cases _ (name_hash_nonneg (str_or (Island.name n) "")))
    as (k & Hk & ->).
  destruct (Island.altitude n) as [a|key].
  - rewrite toNumber_val_or_zero.
    destruct (small_Z_cases a Halt) as (a' & Ha' & ->).
    by apply decay_in_unit_interval.
  - cbn [val_or toNumber]. by apply decay_of_object.
Qed.

(** X15. The decay level of every node of a returned layout whose altitude
    is a number lies between 0 and 1, whatever the node is called; for a node
    whose altitude is an inherited object it is NaN. *)
Theorem decay_level_range Math_sin Math_cos lower t m :
  match buildCityLayout Math_sin Math_cos lower t m with
  | Return L =>
      Forall (fun n =>
                match Island.altitude n with
                | Num _ =>
                    PrimFloat.leb 0 (getDecayLevel n) = true
                    /\ PrimFloat.leb (getDecayLevel n) 1 = true
                | Inherited _ => getDecayLevel n = PrimFloat.nan
                end)
        (islands L)
  | Throw _ => m = None /\ ~ noData t
  end.
Proof.
  destruct (buildCityLayout Math_sin Math_cos lower t m) as [L|e] eqn:HL.
  - destruct (returned_layout_shape _ _ _ _ _ _ HL) as (c & Hshape & _ & _ & Hc0 & Hplain).
    rewrite Hshape. constructor.
    + pose proof (getDecayLevel_range c) as Hr. rewrite Hc0 in Hr |- *.
      apply Hr. lia.
    + eapply Forall_impl; [exact Hplain|]. intros n (_ & _ & Hn).
      apply getDecayLevel_range. by destruct (Island.altitude n).
  - destruct t as [[|x l]|]; try done. destruct m; [done|].
    split; [done|]. intros [H|H]; discriminate H.
Qed.

(** * The fetch hook *)

(** ** The contents fallback *)




(** ** The URL parser *)

Lemma includes_app s1 s2 c :
  includes (s1 +:+ s2) c = includes s1 c || includes s2 c.
Proof. induction s1 as [|d r IH]; simpl; [done|]. by case_decide. Qed.

Lemma match_count_app s1 s2 c :
  match_count (s1 +:+ s2) c = match_count s1 c + match_count s2 c.
Proof. induction s1 as [|d r IH]; simpl; [done|]. rewrite IH. lia. Qed.

Lemma split_units_app s1 s2 :
  split_units (s1 +:+ s2) = split_units s1 ++ split_units s2.
Proof. induction s1 as [|d r IH]; simpl; [done|]. by f_equal. Qed.

Lemma includes_split_units s c :
  includes s c = true <-> c ∈ split_units s.
Proof.
  induction s as [|d r IH]; simpl.
  - split; [done|]. by intros ?%elem_of_nil.
  - rewrite elem_of_cons. case_decide as Hd.
    + split; [by left|done].
    + rewrite IH. split; [by right|]. by intros [->|?].
Qed.

Lemma includes_false_Forall s c :
  Forall (fun d => d <> c) (split_units s) -> includes s c = false.
Proof.
  intros H. destruct (includes s c) eqn:Hc; [|done].
  apply includes_split_units in Hc. rewrite Forall_forall in H.
  by destruct (H _ Hc).
Qed.

(** Segments of a split hold no separator and only units of the string. *)
Lemma split_segments s c :
  Forall (fun seg => includes seg c = false
                     /\ forall x, includes seg x = true -> includes s x = true)
    (split s c).
Proof.
  induction s as [|d r IH]; simpl.
  - by repeat constructor.
  - case_decide as Hd.
    + constructor; [done|]. eapply Forall_impl; [exact IH|].
      intros seg [H1 H2]. split; [done|]. intros x Hx.
      case_decide; [done|]. by apply H2.
    + pose proof (split_nonempty r c) as Hne.
      destruct (split r c) as [|seg segs]; [done|].
      apply Forall_cons in IH as [[H1 H2] IH]. constructor.
      * split; [simpl; by rewrite decide_False|].
        intros x; simpl. case_decide; [done|]. apply H2.
      * eapply Forall_impl; [exact IH|].
        intros seg' [H1' H2']. split; [done|]. intros x Hx.
        case_decide; [done|]. by apply H2'.
Qed.

Lemma firstSegment_clean s c :
  includes (firstSegment s c) c = false
  /\ forall x, includes (firstSegment s c) x = true -> includes s x = true.
Proof.
  unfold firstSegment. pose proof (split_segments s c) as H.
  pose proof (split_nonempty s c) as Hne.
  destruct (split s c) as [|seg segs]; [done|]. by apply Forall_cons in H as [H _].
Qed.

Lemma removeSuffix_units suf s x :
  includes (removeSuffix suf s) x = true -> includes s x = true.
Proof.
  induction s as [|d r IH]; simpl.
  - by case_decide.
  - case_decide; [done|]. simpl. case_decide; [done|]. apply IH.
Qed.

Lemma stripPrefix_Some pre s rest :
  stripPrefix pre s = Some rest -> s = pre +:+ rest.
Proof.
  revert s. induction pre as [|p pre IH]; intros s; simpl.
  - by intros [= ->].
  - destruct s as [|c r]; [done|]. case_decide as Hc; [|done].
    intros H. rewrite (IH _ H). by subst c.
Qed.

Lemma removePrefix_units pre s x :
  includes (removePrefix pre s) x = true -> includes s x = true.
Proof.
  unfold removePrefix. destruct (stripPrefix pre s) as [rest|] eqn:H; [|done].
  simpl. intros Hx. rewrite (stripPrefix_Some _ _ _ H), includes_app, Hx.
  apply orb_true_r.
Qed.

Lemma removeProtocol_units s x :
  includes (removeProtocol s) x = true -> includes s x = true.
Proof.
  unfold removeProtocol. destruct (stripPrefix "https://" s) as [rest|] eqn:H.
  - intros Hx. rewrite (stripPrefix_Some _ _ _ H), includes_app, Hx.
    apply orb_true_r.
  - apply removePrefix_units.
Qed.

(** X17. What [parseRepoUrl] returns, whenever it returns a repository:
    an owner and a repository name that are not empty and hold no slash, no
    '#' and no '?', whatever was typed. *)
Theorem parseRepoUrl_result_shape rawUrl r :
  parseRepoUrl rawUrl = Some r ->
  owner r <> "" /\ repo r <> ""
  /\ Forall (fun c => includes (owner r) c = false /\ includes (repo r) c = false)
       ["/"%u16; "#"%u16; "?"%u16].
Proof.
  unfold parseRepoUrl.
  set (u1 := firstSegment (trim (str_or rawUrl "")) "#"%u16).
  set (u2 := firstSegment u1 "?"%u16).
  set (u := removePrefix "github.com/"
              (removePrefix "www."
                 (removeProtocol (removeSuffix ".git" (removeSuffix "/" u2))))).
  assert (forall x, includes u x = true -> includes u2 x = true) as Hsub.
  { intros x Hx. unfold u in Hx.
    by apply removePrefix_units, removePrefix_units, removeProtocol_units,
      removeSuffix_units, removeSuffix_units in Hx. }
  assert (includes u "#"%u16 = false /\ includes u "?"%u16 = false) as [Hhash Hq].
  { destruct (firstSegment_clean (trim (str_or rawUrl "")) "#"%u16) as [H1 _].
    destruct (firstSegment_clean u1 "?"%u16) as [H2 H3]. fold u1 in H1. fold u2 in H2, H3.
    split.
    - destruct (includes u "#"%u16) eqn:E; [|done].
      apply Hsub, H3 in E. congruence.
    - destruct (includes u "?"%u16) eqn:E; [|done].
      apply Hsub in E. congruence. }
  pose proof (split_segments u "/"%u16) as Hseg.
  assert (Forall (fun seg => seg <> "" /\ includes seg "/"%u16 = false
                             /\ includes seg "#"%u16 = false
                             /\ includes seg "?"%u16 = false)
            (filter (fun p => p <> "") (split u "/"%u16))) as Hparts.
  { apply Forall_forall. intros seg [Hne Hin]%list_elem_of_filter.
    rewrite Forall_forall in Hseg. destruct (Hseg _ Hin) as [H1 H2].
    split; [done|]. split; [done|]. split.
    - destruct (includes seg "#"%u16) eqn:E; [|done]. apply H2 in E. congruence.
    - destruct (includes seg "?"%u16) eqn:E; [|done]. apply H2 in E. congruence. }
  destruct (filter _ (split u "/"%u16)) as [|o [|p parts]]; [done|done|].
  intros [= <-]. cbn [owner repo].
  apply Forall_cons in Hparts as [(Ho1 & Ho2 & Ho3 & Ho4) Hparts].
  apply Forall_cons in Hparts as [(Hp1 & Hp2 & Hp3 & Hp4) _].
  split; [done|]. split; [done|]. by repeat constructor.
Qed.

Lemma parseRepoUrl_result_shape_witness :
  parseRepoUrl (Some "  https://github.com/facebook/react/tree/main?tab=readme#top ")
  = Some {| owner := "facebook"; repo := "react" |}
  /\ includes "react" "/"%u16 = false.
Proof.
  assert (parseRepoUrl
            (Some "  https://github.com/facebook/react/tree/main?tab=readme#top ")
          = Some {| owner := "facebook"; repo := "react" |}) as H by (by vm_compute).
  split; [exact H|].
  destruct (parseRepoUrl_result_shape _ _ H) as (_ & _ & Hall).
  apply Forall_cons in Hall as [[_ Hr] _]. exact Hr.
Defined.

(** *** Strings that pass through the parser unchanged *)

Lemma str_app_cons d (a b : jsstring) : JCons d a +:+ b = JCons d (a +:+ b).
Proof. reflexivity. Qed.

Lemma str_app_nil_l (a : jsstring) : "" +:+ a = a.
Proof. reflexivity. Qed.

Lemma str_app_assoc (a b c : jsstring) : (a +:+ b) +:+ c = a +:+ (b +:+ c).
Proof.
  induction a as [|d a IH]; [done|]. by rewrite !str_app_cons, IH.
Qed.

Lemma str_length_app (a b : jsstring) :
  str_length (a +:+ b) = (str_length a + str_length b)%nat.
Proof.
  induction a as [|d a IH]; [done|]. rewrite str_app_cons. simpl. by rewrite IH.
Qed.

Lemma str_app_nil_r (a : jsstring) : a +:+ "" = a.
Proof. induction a as [|d a IH]; [done|]. by rewrite str_app_cons, IH. Qed.

Lemma trimEnd_id s :
  Forall (fun c => is_space c = false) (split_units s) -> trimEnd s = s.
Proof.
  induction s as [|c r IH]; [done|]. intros [Hc Hr]%Forall_cons. simpl.
  rewrite (IH Hr). destruct r; [by rewrite Hc|done].
Qed.

Lemma trim_id s :
  Forall (fun c => is_space c = false) (split_units s) -> trim s = s.
Proof.
  intros H. unfold trim.
  assert (trimStart s = s) as ->.
  { destruct s as [|c r]; [done|]. apply Forall_cons in H as [Hc _].
    simpl. by rewrite Hc. }
  by apply trimEnd_id.
Qed.

Lemma firstSegment_id s c : includes s c = false -> firstSegment s c = s.
Proof. intros H. unfold firstSegment. by rewrite (split_no_separator _ _ H). Qed.

Ltac str_norm :=
  repeat (rewrite str_app_assoc || rewrite str_app_cons || rewrite str_app_nil_l).

Lemma removeSuffix_app_self suf a :
  suf <> "" -> removeSuffix suf (a +:+ suf) = a.
Proof.
  intros Hsuf. induction a as [|d a IH].
  - change ("" +:+ suf) with suf.
    destruct suf as [|c suf]; [done|]. simpl. by rewrite decide_True.
  - rewrite str_app_cons. simpl. rewrite decide_False.
    + by rewrite IH.
    + intros Heq. apply (f_equal str_length) in Heq.
      simpl in Heq. rewrite str_length_app in Heq. lia.
Qed.

Lemma removeSuffix_unchanged suf s :
  (forall stem, s <> stem +:+ suf) -> removeSuffix suf s = s.
Proof.
  induction s as [|d r IH]; intros H.
  - simpl. case_decide as Heq; [|done]. by destruct (H "").
  - simpl. rewrite decide_False by (intros Heq; by apply (H "")).
    rewrite IH; [done|]. intros stem Heq. apply (H (JCons d stem)).
    by rewrite str_app_cons, Heq.
Qed.

Lemma app_suffix_inv a b stem suf :
  a +:+ b = stem +:+ suf -> (str_length suf <= str_length b)%nat ->
  exists b', b = b' +:+ suf.
Proof.
  revert stem. induction a as [|d a IH]; intros stem Heq Hlen.
  - by exists stem.
  - rewrite str_app_cons in Heq. destruct stem as [|e stem].
    + change ("" +:+ suf) with suf in Heq.
      apply (f_equal str_length) in Heq. simpl in Heq.
      rewrite str_length_app in Heq. lia.
    + rewrite str_app_cons in Heq. injection Heq as _ Heq. by eapply IH.
Qed.

Lemma removeSuffix_app_sep suf a sep b :
  includes suf sep = false ->
  removeSuffix suf (a +:+ JCons sep b) = a +:+ JCons sep (removeSuffix suf b).
Proof.
  intros Hsuf.
  assert (forall x, includes x sep = true -> x <> suf) as Hne.
  { intros x Hx ->. congruence. }
  induction a as [|d a IH].
  - change ("" +:+ JCons sep b) with (JCons sep b). simpl.
    rewrite decide_False; [done|]. apply Hne. simpl. by rewrite decide_True.
  - rewrite !str_app_cons. simpl.
    rewrite decide_False; [by rewrite IH|]. apply Hne. simpl.
    case_decide; [done|]. rewrite includes_app. simpl.
    rewrite decide_True by done. apply orb_true_r.
Qed.

Lemma split_app_sep a sep b :
  includes a sep = false -> split (a +:+ JCons sep b) sep = a :: split b sep.
Proof.
  induction a as [|d a IH].
  - intros _. change ("" +:+ JCons sep b) with (JCons sep b). simpl.
    by rewrite decide_True.
  - rewrite str_app_cons. simpl. case_decide; [done|]. intros Ha.
    by rewrite (IH Ha).
Qed.

Lemma cleanName_units s :
  cleanName s ->
  s <> "" /\ includes s "/"%u16 = false
  /\ Forall (fun c => is_space c = false /\ c <> "#"%u16 /\ c <> "?"%u16)
       (split_units s).
Proof.
  intros [Hne Hall]. split; [done|]. split.
  - apply includes_false_Forall. eapply Forall_impl; [exact Hall|].
    by intros c (_ & Hc & _).
  - eapply Forall_impl; [exact Hall|]. by intros c (Hc & _ & Hrest).
Qed.

Lemma nonempty_length s : s <> "" -> (1 <= str_length s)%nat.
Proof. destruct s; [done|]. simpl. lia. Qed.

(** The two suffix removals take "/", ".git" and ".git/" off the end of
    "owner/repo" and nothing else. *)
Lemma strip_url_suffix a r suf :
  r <> "" -> includes r "/"%u16 = false ->
  (forall stem, r <> stem +:+ ".git") ->
  suf ∈ urlSuffixes ->
  removeSuffix ".git" (removeSuffix "/" (a +:+ JCons "/"%u16 (r +:+ suf)))
  = a +:+ JCons "/"%u16 r.
Proof.
  intros Hne Hslash Hgit Hsuf.
  assert (removeSuffix ".git" (a +:+ JCons "/"%u16 r) = a +:+ JCons "/"%u16 r) as Hplain.
  { rewrite removeSuffix_app_sep by done. by rewrite (removeSuffix_unchanged ".git" r). }
  assert (removeSuffix ".git" (a +:+ JCons "/"%u16 (r +:+ ".git")) = a +:+ JCons "/"%u16 r)
    as Hdotgit.
  { rewrite removeSuffix_app_sep by done. by rewrite removeSuffix_app_self. }
  assert (forall x, removeSuffix "/" (a +:+ JCons "/"%u16 (r +:+ (x +:+ "/")))
                    = a +:+ JCons "/"%u16 (r +:+ x)) as Hslashed.
  { intros x.
    replace (a +:+ JCons "/"%u16 (r +:+ (x +:+ "/")))
      with ((a +:+ JCons "/"%u16 (r +:+ x)) +:+ "/").
    - by apply removeSuffix_app_self.
    - by str_norm. }
  unfold urlSuffixes in Hsuf.
  apply elem_of_cons in Hsuf as [->|Hsuf].
  { rewrite str_app_nil_r. rewrite (removeSuffix_unchanged "/"); [done|].
    intros stem Heq.
    replace (a +:+ JCons "/"%u16 r) with ((a +:+ "/") +:+ r) in Heq
      by (by str_norm).
    apply app_suffix_inv in Heq as [b' ->]; [|by apply nonempty_length].
    rewrite includes_app in Hslash. simpl in Hslash.
    by rewrite orb_true_r in Hslash. }
  apply elem_of_cons in Hsuf as [->|Hsuf].
  { change (r +:+ "/") with (r +:+ ("" +:+ "/")).
    rewrite Hslashed. by rewrite str_app_nil_r. }
  apply elem_of_cons in Hsuf as [->|Hsuf].
  { rewrite (removeSuffix_unchanged "/"); [done|].
    intros stem Heq.
    replace (a +:+ JCons "/"%u16 (r +:+ ".git")) with ((a +:+ JCons "/"%u16 r) +:+ ".git") in Heq
      by (by str_norm).
    apply app_suffix_inv in Heq as [b' Hb']; [|simpl; lia].
    destruct b' as [|? [|? [|? [|? [|? ?]]]]]; cbv [append] in Hb';
      simplify_eq. }
  apply elem_of_cons in Hsuf as [->|Hsuf]; [|by apply elem_of_nil in Hsuf].
  change (r +:+ ".git/") with (r +:+ (".git" +:+ "/")).
  by rewrite Hslashed.
Qed.

Lemma strip_host_prefix pre x :
  pre ∈ hostPrefixes ->
  removePrefix "github.com/" (removePrefix "www." (removeProtocol (pre +:+ x))) = x.
Proof.
  unfold hostPrefixes. intros H.
  repeat (apply elem_of_cons in H as [->|H]; [reflexivity|]).
  by apply elem_of_nil in H.
Qed.

Lemma fixed_parts_clean :
  Forall (fun s => Forall (fun c => is_space c = false
                                    /\ c <> "#"%u16 /\ c <> "?"%u16)
                     (split_units s))
    (hostPrefixes ++ urlSuffixes).
Proof. apply (bool_decide_unpack _). by vm_compute. Qed.

(** X18. The forms of a repository address the parser accepts: "owner/repo"
    behind any of the host spellings (github.com, with or without www. and
    http:// or https://), followed by nothing, a slash, ".git" or ".git/",
    parses to exactly that owner and repository, for every clean owner and
    every clean repository name that does not itself end in ".git". *)
Theorem parseRepoUrl_host_forms o r pre suf :
  cleanName o -> cleanName r ->
  (forall stem, r <> stem +:+ ".git") ->
  pre ∈ hostPrefixes -> suf ∈ urlSuffixes ->
  parseRepoUrl (Some (pre +:+ o +:+ "/" +:+ r +:+ suf))
  = Some {| owner := o; repo := r |}.
Proof.
  intros (Ho1 & Ho2 & Ho3)%cleanName_units (Hr1 & Hr2 & Hr3)%cleanName_units
    Hgit Hpre Hsuf.
  pose proof fixed_parts_clean as Hfixed. rewrite Forall_forall in Hfixed.
  assert (Forall (fun c => is_space c = false /\ c <> "#"%u16 /\ c <> "?"%u16)
            (split_units (pre +:+ o +:+ "/" +:+ r +:+ suf))) as Hall.
  { rewrite !split_units_app. repeat apply Forall_app_2; try done.
    - apply Hfixed, elem_of_app. by left.
    - by repeat constructor.
    - apply Hfixed, elem_of_app. by right. }
  set (url := pre +:+ o +:+ "/" +:+ r +:+ suf) in *.
  unfold parseRepoUrl.
  assert (str_or (Some url) "" = url) as ->
    by (unfold str_or; case_decide; congruence).
  rewrite trim_id
    by (eapply Forall_impl; [exact Hall|]; by intros c (Hc & _)).
  rewrite (firstSegment_id url "#"%u16)
    by (apply includes_false_Forall; eapply Forall_impl; [exact Hall|];
        by intros c (_ & Hc & _)).
  rewrite (firstSegment_id url "?"%u16)
    by (apply includes_false_Forall; eapply Forall_impl; [exact Hall|];
        by intros c (_ & _ & Hc)).
  unfold url.
  replace (pre +:+ o +:+ "/" +:+ r +:+ suf)
    with ((pre +:+ o) +:+ JCons "/"%u16 (r +:+ suf)) by (by str_norm).
  rewrite strip_url_suffix by done.
  rewrite str_app_assoc, strip_host_prefix by done.
  rewrite split_app_sep, (split_no_separator r) by done.
  by rewrite !filter_cons_True by done.
Qed.

Lemma parseRepoUrl_host_forms_witness :
  cleanName "vercel" /\ cleanName "next.js"
  /\ parseRepoUrl (Some "https://www.github.com/vercel/next.js.git/")
     = Some {| owner := "vercel"; repo := "next.js" |}.
Proof.
  assert (cleanName "vercel") as Ho.
  { split; [done|]. apply (bool_decide_unpack _). by vm_compute. }
  assert (cleanName "next.js") as Hr.
  { split; [done|]. apply (bool_decide_unpack _). by vm_compute. }
  split; [exact Ho|]. split; [exact Hr|].
  refine (parseRepoUrl_host_forms "vercel" "next.js" "https://www.github.com/" ".git/"
            Ho Hr _ _ _).
  - intros stem Heq.
    assert ("next.js" = "nex" +:+ "t.js") as Hsplit by reflexivity.
    rewrite Hsplit in Heq.
    apply app_suffix_inv in Heq as [b' Hb']; [|simpl; lia].
    destruct b' as [|? [|? [|? [|? [|? ?]]]]]; cbv [append] in Hb';
      simplify_eq.
  - apply (bool_decide_unpack _). by vm_compute.
  - apply (bool_decide_unpack _). by vm_compute.
Defined.

(** *** The short form "owner/repo" *)

(** A string is cut at its first separator in one way only. *)
Lemma first_sep_unique sep a a' b b' :
  includes a sep = false -> includes a' sep = false ->
  a +:+ JCons sep b = a' +:+ JCons sep b' -> a = a' /\ b = b'.
Proof.
  revert a'. induction a as [|d a IH]; intros [|d' a'] Ha Ha' Heq;
    rewrite ?str_app_cons, ?str_app_nil_l in Heq.
  - by injection Heq as ->.
  - injection Heq as <- _. simpl in Ha'. by rewrite decide_True in Ha'.
  - injection Heq as -> _. simpl in Ha. by rewrite decide_True in Ha.
  - injection Heq as -> Heq. simpl in Ha, Ha'.
    case_decide; [done|]. destruct (IH a' Ha Ha' Heq) as [-> ->]. done.
Qed.

(** A literal that holds the separator twice starts no string that holds
    it once. *)
Lemma stripPrefix_two_seps pre1 pre2 sep o r :
  includes pre1 sep = false ->
  includes o sep = false -> includes r sep = false ->
  stripPrefix (pre1 +:+ JCons sep (JCons sep pre2)) (o +:+ JCons sep r) = None.
Proof.
  intros Hpre Ho Hr.
  destruct (stripPrefix _ (o +:+ JCons sep r)) as [rest|] eqn:H; [|done].
  apply stripPrefix_Some in H. rewrite str_app_assoc, !str_app_cons in H.
  apply first_sep_unique in H as [_ ->]; [|done..].
  simpl in Hr. by rewrite decide_True in Hr.
Qed.

Lemma stripPrefix_None_app pre sep o r :
  includes pre sep = false ->
  stripPrefix pre o = None -> stripPrefix pre (o +:+ JCons sep r) = None.
Proof.
  revert o. induction pre as [|p pre IH]; intros o Hpre Ho; [done|].
  simpl in Hpre. case_decide as Hp; [done|].
  destruct o as [|c o]; rewrite ?str_app_cons, ?str_app_nil_l; simpl.
  - by rewrite decide_False by done.
  - simpl in Ho. case_decide; [|done]. by apply IH.
Qed.

(** Nothing is taken off the front of "owner/repo" when the owner is not
    spelled like the host. *)
Lemma bare_prefix_kept o r :
  includes o "/"%u16 = false -> includes r "/"%u16 = false ->
  stripPrefix "www." o = None -> o <> "github.com" ->
  removePrefix "github.com/"
    (removePrefix "www." (removeProtocol (o +:+ JCons "/"%u16 r)))
  = o +:+ JCons "/"%u16 r.
Proof.
  intros Ho Hr Hwww Hhost. unfold removeProtocol, removePrefix.
  assert (stripPrefix "https://" (o +:+ JCons "/"%u16 r) = None) as ->
    by exact (stripPrefix_two_seps "https:" "" "/"%u16 o r eq_refl Ho Hr).
  assert (stripPrefix "http://" (o +:+ JCons "/"%u16 r) = None) as ->
    by exact (stripPrefix_two_seps "http:" "" "/"%u16 o r eq_refl Ho Hr).
  cbn [default].
  rewrite (stripPrefix_None_app "www." "/"%u16 o r) by done. cbn [default].
  destruct (stripPrefix "github.com/" (o +:+ JCons "/"%u16 r)) as [rest|] eqn:H;
    [|done].
  apply stripPrefix_Some in H.
  change ("github.com/" +:+ rest) with ("github.com" +:+ JCons "/"%u16 rest) in H.
  by apply first_sep_unique in H as [-> _].
Qed.

(** X19. The short form: "owner/repo", followed by nothing, a slash, ".git"
    or ".git/", parses to exactly that owner and repository, for every clean
    owner that is not "github.com" and does not start with "www.", and every
    clean repository name that does not itself end in ".git". *)
Theorem parseRepoUrl_short_form o r suf :
  cleanName o -> cleanName r ->
  (forall stem, r <> stem +:+ ".git") ->
  stripPrefix "www." o = None -> o <> "github.com" ->
  suf ∈ urlSuffixes ->
  parseRepoUrl (Some (o +:+ "/" +:+ r +:+ suf))
  = Some {| owner := o; repo := r |}.
Proof.
  intros (Ho1 & Ho2 & Ho3)%cleanName_units (Hr1 & Hr2 & Hr3)%cleanName_units
    Hgit Hwww Hhost Hsuf.
  pose proof fixed_parts_clean as Hfixed. rewrite Forall_forall in Hfixed.
  assert (Forall (fun c => is_space c = false /\ c <> "#"%u16 /\ c <> "?"%u16)
            (split_units (o +:+ "/" +:+ r +:+ suf))) as Hall.
  { rewrite !split_units_app. repeat apply Forall_app_2; try done.
    - by repeat constructor.
    - apply Hfixed, elem_of_app. by right. }
  set (url := o +:+ "/" +:+ r +:+ suf) in *.
  unfold parseRepoUrl.
  assert (str_or (Some url) "" = url) as ->
    by (unfold str_or; case_decide; congruence).
  rewrite trim_id
    by (eapply Forall_impl; [exact Hall|]; by intros c (Hc & _)).
  rewrite (firstSegment_id url "#"%u16)
    by (apply includes_false_Forall; eapply Forall_impl; [exact Hall|];
        by intros c (_ & Hc & _)).
  rewrite (firstSegment_id url "?"%u16)
    by (apply includes_false_Forall; eapply Forall_impl; [exact Hall|];
        by intros c (_ & _ & Hc)).
  unfold url.
  replace (o +:+ "/" +:+ r +:+ suf)
    with (o +:+ JCons "/"%u16 (r +:+ suf)) by (by str_norm).
  rewrite strip_url_suffix by done.
  rewrite bare_prefix_kept by done.
  rewrite split_app_sep, (split_no_separator r) by done.
  by rewrite !filter_cons_True by done.
Qed.

Lemma parseRepoUrl_short_form_witness :
  cleanName "facebook" /\ cleanName "react"
  /\ parseRepoUrl (Some "facebook/react.git")
     = Some {| owner := "facebook"; repo := "react" |}.
Proof.
  assert (cleanName "facebook") as Ho.
  { split; [done|]. apply (bool_decide_unpack _). by vm_compute. }
  assert (cleanName "react") as Hr.
  { split; [done|]. apply (bool_decide_unpack _). by vm_compute. }
  split; [exact Ho|]. split; [exact Hr|].
  refine (parseRepoUrl_short_form "facebook" "react" ".git" Ho Hr _ _ _ _).
  - intros stem Heq.
    assert ("react" = "r" +:+ "eact") as Hsplit by reflexivity.
    rewrite Hsplit in Heq.
    apply app_suffix_inv in Heq as [b' Hb']; [|simpl; lia].
    destruct b' as [|? [|? [|? [|? [|? ?]]]]]; cbv [append] in Hb';
      simplify_eq.
  - reflexivity.
  - done.
  - apply (bool_decide_unpack _). by vm_compute.
Defined.
